(** * The S3 remote transfer handler of [opentaskpy.addons.aws]

    A shallow embedding of [remotehandlers/s3.py] (class [S3Transfer]) and
    the properties of its listing, transfer and post-copy operations.

    The handler talks to three collaborators that are not part of the
    module: the boto3 S3 client, the local file system (through
    [glob.glob]) and Python's [re] module.  The client and the file system
    are modelled as a deterministic oracle over the history of calls made
    so far; every call is recorded in a trace, so that the order of the
    requests a method issues can be stated.  The [re] module is an
    interface ([re_module]); a small backtracking engine for a fragment of
    the pattern syntax instantiates it where an example has to be run. *)

From Stdlib Require Import Ascii String List ZArith Lia Bool DecimalString.
From stdpp Require Import base option list gmap strings.

Open Scope string_scope.
Open Scope list_scope.

(** ** Python values and exceptions *)

(** The exceptions that occur in the module; all of them derive from
    [Exception], so an [except Exception] clause catches each of them. *)
Inductive exn : Type :=
| KeyError (key : string)
| ReError (msg : string)
| ClientError (code : string)
| OSError (msg : string)
| NotImplementedError.

(** The outcome of running a piece of code: a value, a raised exception, or
    a loop that was cut off because the fuel of the model ran out. *)
Inductive outcome (A : Type) : Type :=
| Returned (a : A)
| Raised (e : exn)
| OutOfFuel.

Arguments Returned {A} a.
Arguments Raised {A} e.
Arguments OutOfFuel {A}.

(** ** Strings: [str.split] and the base name of a key *)

Module PyStr.

(** [s.split(sep)] for a one-character separator. *)
Fixpoint split (sep : ascii) (s : string) : list string :=
  match s with
  | EmptyString => [EmptyString]
  | String c s' =>
      if Ascii.eqb c sep then EmptyString :: split sep s'
      else match split sep s' with
           | [] => [String c EmptyString]
           | w :: ws => String c w :: ws
           end
  end.

(** [s.split("/")[-1]]: the text after the last ['/']. *)
Definition basename (s : string) : string :=
  List.last (split "/"%char s) EmptyString.

(** Truthiness of an optional string argument: [None] and [""] are falsy. *)
Definition truthy (o : option string) : bool :=
  match o with
  | None => false
  | Some EmptyString => false
  | Some (String _ _) => true
  end.

End PyStr.

(** ** Regular expressions *)

(** What the handler uses of Python's [re]: [re.match], of which only the
    truthiness of the result is read, and [re.sub].  Both raise [re.error]
    on a pattern that does not compile. *)
Record re_module : Type := {
  re_match : string -> string -> outcome bool;
  re_sub : string -> string -> string -> outcome string
}.

Module MiniRe.

(** A fragment of the pattern syntax: literal characters, [.], the anchors
    [^] and [$], the greedy postfix operators [*], [+] and [?],
    alternation and grouping, and a backslash before a punctuation
    character.  Character classes, counted and lazy repetition, special
    sequences and flags are not part of it: [compile] does not accept a
    pattern that uses them, so what is run through this engine is written
    in the fragment. *)
Inductive regex : Type :=
| Empty
| Lit (c : ascii)
| AnyChar
| Bol
| Eol
| Cat (r1 r2 : regex)
| Alt (r1 r2 : regex)
| Star (r : regex).

Definition newline : ascii := "010"%char.

(** Backtracking matcher in continuation-passing style.  [bol] tells
    whether the current position is the start of the subject; [s] is the
    rest of the subject; the continuation receives the position after the
    match and answers with the end of the overall match, or [None] to make
    the matcher backtrack.  Alternatives are tried left to right and
    repetition is greedy, which is the order of Python's engine.  As in
    that engine, an iteration of a repetition that consumed nothing is not
    followed by another one: the match goes on with what comes after the
    repetition. *)
Fixpoint run (r : regex) (bol : bool) (s : list ascii)
    (k : bool -> list ascii -> option (list ascii)) {struct r}
    : option (list ascii) :=
  match r with
  | Empty => k bol s
  | Lit c =>
      match s with
      | x :: s' => if Ascii.eqb x c then k false s' else None
      | [] => None
      end
  | AnyChar =>
      match s with
      | x :: s' => if Ascii.eqb x newline then None else k false s'
      | [] => None
      end
  | Bol => if bol then k bol s else None
  | Eol =>
      match s with
      | [] => k bol s
      | [x] => if Ascii.eqb x newline then k bol s else None
      | _ => None
      end
  | Cat r1 r2 => run r1 bol s (fun b' s' => run r2 b' s' k)
  | Alt r1 r2 =>
      match run r1 bol s k with
      | Some e => Some e
      | None => run r2 bol s k
      end
  | Star r1 =>
      (fix loop (n : nat) (b : bool) (s0 : list ascii) : option (list ascii) :=
         match n with
         | O => k b s0
         | S n' =>
             match run r1 b s0
                     (fun b' s' =>
                        if Nat.ltb (List.length s') (List.length s0)
                        then loop n' b' s' else k b' s')
             with
             | Some e => Some e
             | None => k b s0
             end
         end) (List.length s) bol s
  end.

(** *** Parsing a pattern *)

Definition is_postfix (c : ascii) : bool :=
  Ascii.eqb c "*" || Ascii.eqb c "+" || Ascii.eqb c "?".

(** Characters with a meaning of their own in a pattern. *)
Definition is_special (c : ascii) : bool :=
  is_postfix c
  || Ascii.eqb c "(" || Ascii.eqb c ")" || Ascii.eqb c "|"
  || Ascii.eqb c "[" || Ascii.eqb c "{"
  || Ascii.eqb c "\" || Ascii.eqb c "." || Ascii.eqb c "^" || Ascii.eqb c "$".

(** ASCII letters and digits: after a backslash they form a special
    sequence; any other ASCII character after a backslash stands for
    itself. *)
Definition is_alnum (c : ascii) : bool :=
  let n := nat_of_ascii c in
  (Nat.leb 48 n && Nat.leb n 57) || (Nat.leb 65 n && Nat.leb n 90)
  || (Nat.leb 97 n && Nat.leb n 122).

Definition is_escapable (c : ascii) : bool :=
  negb (is_alnum c) && Nat.ltb (nat_of_ascii c) 128.

(** One postfix operator at most: a second one would be a lazy or
    possessive quantifier, or an error, none of which the fragment has. *)
Definition postfix (a : regex) (s : list ascii) : option (regex * list ascii) :=
  match s with
  | c :: s' =>
      if is_postfix c then
        match s' with
        | d :: _ => if is_postfix d then None else
            Some (if Ascii.eqb c "*" then Star a
                  else if Ascii.eqb c "+" then Cat a (Star a)
                  else Alt a Empty, s')
        | [] =>
            Some (if Ascii.eqb c "*" then Star a
                  else if Ascii.eqb c "+" then Cat a (Star a)
                  else Alt a Empty, s')
        end
      else Some (a, s)
  | [] => Some (a, s)
  end.

Fixpoint parse_alt (fuel : nat) (s : list ascii) : option (regex * list ascii) :=
  match fuel with
  | O => None
  | S f =>
      match parse_seq f s with
      | Some (r1, c :: s') =>
          if Ascii.eqb c "|" then
            match parse_alt f s' with
            | Some (r2, s'') => Some (Alt r1 r2, s'')
            | None => None
            end
          else Some (r1, c :: s')
      | other => other
      end
  end
with parse_seq (fuel : nat) (s : list ascii) : option (regex * list ascii) :=
  match fuel with
  | O => None
  | S f =>
      match s with
      | [] => Some (Empty, s)
      | c :: s' =>
          if Ascii.eqb c "|" || Ascii.eqb c ")" then Some (Empty, s)
          else
            match parse_atom f s with
            | Some (a, s1) =>
                match parse_seq f s1 with
                | Some (Empty, s2) => Some (a, s2)
                | Some (r, s2) => Some (Cat a r, s2)
                | None => None
                end
            | None => None
            end
      end
  end
with parse_atom (fuel : nat) (s : list ascii) : option (regex * list ascii) :=
  match fuel with
  | O => None
  | S f =>
      match s with
      | [] => None
      | c :: s' =>
          if Ascii.eqb c "(" then
            match parse_alt f s' with
            | Some (r, d :: s'') =>
                if Ascii.eqb d ")" then postfix r s'' else None
            | _ => None
            end
          else if Ascii.eqb c "." then postfix AnyChar s'
          else if Ascii.eqb c "^" then
            match s' with
            | d :: _ => if is_postfix d then None else Some (Bol, s')
            | [] => Some (Bol, s')
            end
          else if Ascii.eqb c "$" then
            match s' with
            | d :: _ => if is_postfix d then None else Some (Eol, s')
            | [] => Some (Eol, s')
            end
          else if Ascii.eqb c "\" then
            match s' with
            | d :: s'' => if is_escapable d then postfix (Lit d) s'' else None
            | [] => None
            end
          else if is_special c then None
          else postfix (Lit c) s'
      end
  end.

(** [re.compile]; [None] stands for [re.error] (and for a pattern outside
    the fragment, which this engine does not accept). *)
Definition compile (p : string) : option regex :=
  let l := list_ascii_of_string p in
  match parse_alt (3 * List.length l + 3) l with
  | Some (r, []) => Some r
  | _ => None
  end.

(** *** [re.match], [re.fullmatch] and [re.sub] *)

(** The end of the match of [r] at the start of [s], if there is one. *)
Definition match_at (r : regex) (bol : bool) (s : list ascii) : option (list ascii) :=
  run r bol s (fun _ rest => Some rest).

(** As [match_at], but an empty match does not count. *)
Definition match_at_nonempty (r : regex) (bol : bool) (s : list ascii)
    : option (list ascii) :=
  run r bol s (fun _ rest => if Nat.ltb (List.length rest) (List.length s) then Some rest else None).

(** A match that has to reach the end of the subject. *)
Definition fullmatch_at (r : regex) (s : list ascii) : option (list ascii) :=
  run r true s (fun _ rest => match rest with [] => Some rest | _ => None end).

(** The scan of [re.sub]: matches are found left to right and do not
    overlap; after an empty match the next one at the same position has to
    be non-empty ([must_advance]). *)
Fixpoint sub_scan (fuel : nat) (r : regex) (repl : list ascii)
    (bol must_advance : bool) (s : list ascii) : list ascii :=
  match fuel with
  | O => s
  | S f =>
      match (if must_advance then match_at_nonempty r bol s else match_at r bol s) with
      | Some rest =>
          if Nat.ltb (List.length rest) (List.length s)
          then repl ++ sub_scan f r repl false false rest
          else repl ++ sub_scan f r repl bol true s
      | None =>
          match s with
          | [] => []
          | c :: s' => c :: sub_scan f r repl false false s'
          end
      end
  end.

Definition has_backslash (s : string) : bool :=
  existsb (fun c => Ascii.eqb c "\") (list_ascii_of_string s).

Definition pattern_error : exn := ReError "pattern outside the fragment".

Definition py_match (p s : string) : outcome bool :=
  match compile p with
  | Some r => Returned (bool_decide (is_Some (match_at r true (list_ascii_of_string s))))
  | None => Raised pattern_error
  end.

Definition py_fullmatch (p s : string) : outcome bool :=
  match compile p with
  | Some r => Returned (bool_decide (is_Some (fullmatch_at r (list_ascii_of_string s))))
  | None => Raised pattern_error
  end.

(** The replacement is a plain string: a template with a backslash (group
    references, escapes) is outside the fragment. *)
Definition py_sub (p repl s : string) : outcome string :=
  match compile p with
  | Some r =>
      if has_backslash repl then Raised pattern_error
      else
        let l := list_ascii_of_string s in
        Returned (string_of_list_ascii
                    (sub_scan (2 * List.length l + 2) r (list_ascii_of_string repl)
                       true false l))
  | None => Raised pattern_error
  end.

Definition engine : re_module :=
  {| re_match := py_match; re_sub := py_sub |}.

End MiniRe.

(** ** The collaborators: S3 client and local file system *)

(** Keyword arguments of [list_objects_v2]. *)
Record list_kwargs : Type := {
  kw_Bucket : string;
  kw_MaxKeys : Z;
  kw_Prefix : option string;
  kw_ContinuationToken : option string
}.

(** An entry of [response["Contents"]]; only its ["Key"] is read. *)
Record s3_object : Type := { Key : string }.

(** The fields of a [list_objects_v2] response the handler reads.  The
    service leaves ["NextContinuationToken"] out on the last page. *)
Record list_response : Type := {
  KeyCount : Z;
  Contents : list s3_object;
  NextContinuationToken : option string
}.

(** [head_object]: the length, and [LastModified] as its POSIX time stamp. *)
Record head_response : Type := {
  ContentLength : Z;
  LastModified : Z
}.

(** [delete_objects] does not raise for a key it could not delete: it
    reports it under ["Errors"] in the response. *)
Record delete_response : Type := { Errors : list string }.

(** The calls the handler makes on the outside world, with the arguments
    it passes. *)
Inductive call : Type :=
| DeleteObjects (Bucket : string) (Objects : list string) (Quiet : bool)
| CopyObject (Bucket CopySource_Bucket CopySource_Key Key : string)
| ListObjectsV2 (kwargs : list_kwargs)
| HeadObject (Bucket Key : string)
| UploadFile (Filename Bucket Key : string) (ExtraArgs_ACL : option string)
| DownloadFile (Bucket Key Filename : string)
| Copy (CopySource_Bucket CopySource_Key Bucket Key : string)
| GlobGlob (pathname : string).

(** What each call answers with. *)
Definition resp_of (c : call) : Type :=
  match c with
  | DeleteObjects _ _ _ => delete_response
  | CopyObject _ _ _ _ => unit
  | ListObjectsV2 _ => list_response
  | HeadObject _ _ => head_response
  | UploadFile _ _ _ _ => unit
  | DownloadFile _ _ _ => unit
  | Copy _ _ _ _ => unit
  | GlobGlob _ => list string
  end.

(** A call either answers or raises. *)
Inductive result (A : Type) : Type :=
| Ok (a : A)
| Err (e : exn).

Arguments Ok {A} a.
Arguments Err {A} e.

(** The outside world: what a call answers, given the calls made before
    it (in the order they were made). *)
Definition world : Type := forall (history : list call) (c : call), result (resp_of c).


Definition is_delete_objects (c : call) : bool :=
  match c with DeleteObjects _ _ _ => true | _ => false end.

Definition is_list_objects (c : call) : bool :=
  match c with ListObjectsV2 _ => true | _ => false end.

Definition is_copy (c : call) : bool :=
  match c with Copy _ _ _ _ => true | _ => false end.

(** ** A monad of traces and exceptions *)

(** A computation takes the trace of the calls made so far and gives its
    outcome and the extended trace. *)
Definition M (A : Type) : Type := list call -> outcome A * list call.

Definition ret {A} (a : A) : M A := fun tr => (Returned a, tr).

Definition raise {A} (e : exn) : M A := fun tr => (Raised e, tr).

Definition out_of_fuel {A} : M A := fun tr => (OutOfFuel, tr).

Definition lift {A} (o : outcome A) : M A := fun tr => (o, tr).

Definition bind {A B} (m : M A) (f : A -> M B) : M B :=
  fun tr =>
    match m tr with
    | (Returned a, tr') => f a tr'
    | (Raised e, tr') => (Raised e, tr')
    | (OutOfFuel, tr') => (OutOfFuel, tr')
    end.

(** [try: body / except Exception as e: handler]. *)
Definition try_except {A} (body : M A) (handler : exn -> M A) : M A :=
  fun tr =>
    match body tr with
    | (Raised e, tr') => handler e tr'
    | other => other
    end.

Declare Scope py_scope.
Delimit Scope py_scope with py.
Notation "x <- c ;; k" := (bind c (fun x => k))
  (at level 100, c at next level, right associativity) : py_scope.
Notation "c ;;; k" := (bind c (fun _ => k))
  (at level 100, right associativity) : py_scope.
Open Scope py_scope.

(** [for x in l: state = body(x, state)]. *)
Fixpoint for_fold {A S} (l : list A) (s : S) (body : A -> S -> M S) : M S :=
  match l with
  | [] => ret s
  | x :: l' => s' <- body x s ;; for_fold l' s' body
  end.

(** [for x in l: body(x)]. *)
Definition for_each {A} (l : list A) (body : A -> M unit) : M unit :=
  for_fold l tt (fun x _ => body x).

(** [d[k]] on a dict. *)
Definition getitem {V} (d : gmap string V) (k : string) : M V :=
  match d !! k with
  | Some v => ret v
  | None => raise (KeyError k)
  end.

(** ** The handler *)

Definition MAX_OBJECTS_PER_QUERY : Z := 100.

(** The transfer specification.  ["bucket"] and ["directory"] are fields of
    every S3 specification; ["postCopyAction"] is an optional dict of
    strings, and the protocol's ["bucket_owner_full_control"] an optional
    flag. *)
Record Spec : Type := {
  bucket : string;
  directory : string;
  protocol_bucket_owner_full_control : option bool;
  postCopyAction : option (gmap string string)
}.

(** The attributes of an [S3Transfer] that its methods read.  The client
    [s3_client] is the [world] the methods run in. *)
Record S3Transfer : Type := {
  spec : Spec;
  bucket_owner_full_control : bool
}.

(** [__init__], as far as these attributes go. *)
Definition init (sp : Spec) : S3Transfer :=
  {| spec := sp;
     bucket_owner_full_control :=
       match protocol_bucket_owner_full_control sp with
       | Some b => b
       | None => true
       end |}.

(** A remote handler is an [S3Transfer] or an instance of another class. *)
Inductive remote_handler : Type :=
| S3Handler (h : S3Transfer)
| OtherHandler (class_name : string).

(** The value stored for a key by [list_files]. *)
Record file_info : Type := {
  size : Z;
  modified_time : Z
}.

(** What [list_files] returns: [None], or the dict of the files found. *)
Inductive listing : Type :=
| NothingFound
| Files (remote_files : gmap string file_info).

Section Handler.

Variable re : re_module.
Variable s3 : world.

(** A call on the client or the file system: the answer depends on the
    history, and the call is appended to the trace, also when it raises. *)
Definition invoke (c : call) : M (resp_of c) :=
  fun tr =>
    (match s3 tr c with
     | Ok a => Returned a
     | Err e => Raised e
     end, tr ++ [c]).

(** [self.spec["postCopyAction"][k]]. *)
Definition post_copy_action (self : S3Transfer) (k : string) : M string :=
  match postCopyAction (spec self) with
  | Some d => getitem d k
  | None => raise (KeyError "postCopyAction")
  end.

(** [self.spec["postCopyAction"]["action"] == a]. *)
Definition action_is (self : S3Transfer) (a : string) : M bool :=
  v <- post_copy_action self "action" ;; ret (String.eqb v a).

(** The body of the loop of [handle_post_copy_action] for one file. *)
Definition post_copy_one (self : S3Transfer) (file : string) : M unit :=
  is_rename <- action_is self "rename" ;;
  new_file <-
    (if is_rename : bool then
       destination <- post_copy_action self "destination" ;;
       let new_file := destination +:+ PyStr.basename file in
       pattern <- post_copy_action self "pattern" ;;
       sub <- post_copy_action self "sub" ;;
       lift (re_sub re pattern sub new_file)
     else ret file) ;;
  destination <- post_copy_action self "destination" ;;
  invoke (CopyObject (bucket (spec self)) (bucket (spec self)) file
            (destination +:+ "/" +:+ new_file)) ;;;
  invoke (DeleteObjects (bucket (spec self)) [file] true) ;;;
  ret tt.

Definition handle_post_copy_action (self : S3Transfer) (files : list string) : M Z :=
  is_delete <- action_is self "delete" ;;
  (if is_delete : bool then
     invoke (DeleteObjects (bucket (spec self)) files true) ;;; ret tt
   else ret tt) ;;;
  is_move <- action_is self "move" ;;
  move_or_rename <- (if is_move : bool then ret true else action_is self "rename") ;;
  (if move_or_rename : bool then for_each files (post_copy_one self) else ret tt) ;;;
  ret 0%Z.

(** The test of [list_files] on one object: [true] when the object is
    skipped ([file_pattern and not re.match(file_pattern, filename)]). *)
Definition skipped (file_pattern : option string) (filename : string) : M bool :=
  match file_pattern with
  | Some p =>
      if PyStr.truthy file_pattern then
        m <- lift (re_match re p filename) ;; ret (negb m)
      else ret false
  | None => ret false
  end.

(** The body of the loop over [response["Contents"]]. *)
Definition list_one (self : S3Transfer) (file_pattern : option string)
    (object : s3_object) (remote_files : gmap string file_info)
    : M (gmap string file_info) :=
  let key := Key object in
  let filename := PyStr.basename key in
  skip <- skipped file_pattern filename ;;
  if skip : bool then ret remote_files
  else
    file_attr <- invoke (HeadObject (bucket (spec self)) key) ;;
    ret (<[key := {| size := ContentLength file_attr;
                     modified_time := LastModified file_attr |}]> remote_files).

(** [kwargs["ContinuationToken"] = token]. *)
Definition with_token (kwargs : list_kwargs) (token : string) : list_kwargs :=
  {| kw_Bucket := kw_Bucket kwargs;
     kw_MaxKeys := kw_MaxKeys kwargs;
     kw_Prefix := kw_Prefix kwargs;
     kw_ContinuationToken := Some token |}.

(** The keyword arguments of the first request of [list_files]. *)
Definition first_kwargs (self : S3Transfer) (directory : option string) : list_kwargs :=
  {| kw_Bucket := bucket (spec self);
     kw_MaxKeys := MAX_OBJECTS_PER_QUERY;
     kw_Prefix := if PyStr.truthy directory then directory else None;
     kw_ContinuationToken := None |}.

(** The [while True] loop of [list_files]; each iteration uses one unit of
    fuel.  Reading ["NextContinuationToken"] raises [KeyError] when the
    response has none, which the loop catches to [break]. *)
Fixpoint list_loop (fuel : nat) (self : S3Transfer) (file_pattern : option string)
    (kwargs : list_kwargs) (remote_files : gmap string file_info) : M listing :=
  match fuel with
  | O => out_of_fuel
  | S fuel' =>
      response <- invoke (ListObjectsV2 kwargs) ;;
      if negb (Z.eqb (KeyCount response) 0) then
        remote_files' <-
          for_fold (Contents response) remote_files (list_one self file_pattern) ;;
        match NextContinuationToken response with
        | Some token =>
            list_loop fuel' self file_pattern (with_token kwargs token) remote_files'
        | None => ret (Files remote_files')
        end
      else ret NothingFound
  end.

Definition list_files (fuel : nat) (self : S3Transfer)
    (directory : option string) (file_pattern : option string) : M listing :=
  list_loop fuel self file_pattern (first_kwargs self directory) ∅.

Definition move_files_to_final_location (self : S3Transfer) (files : list string)
    : M unit :=
  raise NotImplementedError.

Definition pull_files (self : S3Transfer) (files : list string) (remote_spec : Spec)
    : M unit :=
  raise NotImplementedError.

Definition push_files_from_worker (self : S3Transfer) (local_staging_directory : string)
    : M Z :=
  files <- invoke (GlobGlob (local_staging_directory +:+ "/*")) ;;
  let acl := if bucket_owner_full_control self
             then Some "bucket-owner-full-control" else None in
  for_fold files 0%Z
    (fun file result =>
       let file_name := PyStr.basename file in
       try_except
         (invoke (UploadFile file (bucket (spec self))
                    (directory (spec self) +:+ "/" +:+ file_name) acl) ;;;
          ret result)
         (fun _ => ret 1%Z)).

Definition pull_files_to_worker (self : S3Transfer) (files : list string)
    (local_staging_directory : string) : M Z :=
  for_fold files 0%Z
    (fun file result =>
       let file_name := PyStr.basename file in
       try_except
         (invoke (DownloadFile (bucket (spec self)) file
                    (local_staging_directory +:+ "/" +:+ file_name)) ;;;
          ret result)
         (fun _ => ret 1%Z)).

(** [transfer_files] returns the status when the destination is an
    [S3Transfer], and falls off its end (returning [None]) otherwise. *)
Definition transfer_files (self : S3Transfer) (files : list string)
    (remote_spec : Spec) (dest_remote_handler : option remote_handler)
    : M (option Z) :=
  match dest_remote_handler with
  | Some (S3Handler dest) =>
      result <-
        for_fold files 0%Z
          (fun file result =>
             let file_name := PyStr.basename file in
             try_except
               (invoke (Copy (bucket (spec self)) file (bucket (spec dest))
                          (directory (spec dest) +:+ "/" +:+ file_name)) ;;;
                ret result)
               (fun _ => ret 1%Z)) ;;
      ret (Some result)
  | _ => ret None
  end.

End Handler.

(** ** Worlds that do not depend on the history *)

(** A backend given by one answer per call, whatever happened before. *)
Record backend : Type := {
  on_list_objects_v2 : list_kwargs -> result list_response;
  on_head_object : string -> string -> result head_response;
  on_copy_object : string -> string -> string -> string -> result unit;
  on_delete_objects : string -> list string -> result delete_response;
  on_upload_file : string -> string -> string -> result unit;
  on_download_file : string -> string -> string -> result unit;
  on_copy : string -> string -> string -> string -> result unit;
  on_glob : string -> result (list string)
}.

Definition stateless (b : backend) : world :=
  fun _ c =>
    match c return result (resp_of c) with
    | DeleteObjects bk objs _ => on_delete_objects b bk objs
    | CopyObject bk sb sk k => on_copy_object b bk sb sk k
    | ListObjectsV2 kw => on_list_objects_v2 b kw
    | HeadObject bk k => on_head_object b bk k
    | UploadFile f bk k _ => on_upload_file b f bk k
    | DownloadFile bk k f => on_download_file b bk k f
    | Copy sb sk bk k => on_copy b sb sk bk k
    | GlobGlob p => on_glob b p
    end.

(** A backend on which every request succeeds; the bucket is empty and so
    is the staging directory. *)
Definition quiet : backend :=
  {| on_list_objects_v2 := fun _ =>
       Ok {| KeyCount := 0; Contents := []; NextContinuationToken := None |};
     on_head_object := fun _ _ => Ok {| ContentLength := 0; LastModified := 0 |};
     on_copy_object := fun _ _ _ _ => Ok tt;
     on_delete_objects := fun _ _ => Ok {| Errors := [] |};
     on_upload_file := fun _ _ _ => Ok tt;
     on_download_file := fun _ _ _ => Ok tt;
     on_copy := fun _ _ _ _ => Ok tt;
     on_glob := fun _ => Ok [] |}.

(** Whether a call raises after a given history, and which calls of a
    sequence raise when they are made one after the other. *)
Definition raises (w : world) (history : list call) (c : call) : bool :=
  match w history c with
  | Ok _ => false
  | Err _ => true
  end.

Fixpoint failures (w : world) (history : list call) (cs : list call) : list bool :=
  match cs with
  | [] => []
  | c :: cs' => raises w history c :: failures w (history ++ [c]) cs'
  end.

(** A world in which no call raises. *)
Definition answers (w : world) : Prop :=
  forall history c, raises w history c = false.

(** ** Example configurations *)

Definition spec_of (bkt dir : string) (pca : option (gmap string string)) : Spec :=
  {| bucket := bkt;
     directory := dir;
     protocol_bucket_owner_full_control := None;
     postCopyAction := pca |}.

(** Rename with pattern [^tmp_], replacement [done_], destination
    [archive/]. *)
Definition rename_action : gmap string string :=
  <["action" := "rename"]>
    (<["destination" := "archive/"]>
       (<["pattern" := "^tmp_"]> (<["sub" := "done_"]> ∅))).

(** Move to [archive]. *)
Definition move_action : gmap string string :=
  <["action" := "move"]> (<["destination" := "archive"]> ∅).

Definition delete_action : gmap string string :=
  <["action" := "delete"]> ∅.

Definition renamer (bkt : string) : S3Transfer :=
  init (spec_of bkt "" (Some rename_action)).

Definition mover (bkt : string) : S3Transfer :=
  init (spec_of bkt "" (Some move_action)).

(** ** Vocabulary of the statements *)

(** The two requests made for one file, given the name computed for it. *)
Definition copy_then_delete (bkt dest : string) (name : string -> string)
    (file : string) : list call :=
  [CopyObject bkt bkt file (dest +:+ "/" +:+ name file);
   DeleteObjects bkt [file] true].

(** The number of calls of a kind in a trace, and the order of two calls. *)
Definition count_calls (p : call -> bool) (tr : list call) : nat :=
  List.length (List.filter p tr).



(** A backend on which [copy_object] fails. *)
Definition copy_denied : backend :=
  {| on_list_objects_v2 := on_list_objects_v2 quiet;
     on_head_object := on_head_object quiet;
     on_copy_object := fun _ _ _ _ => Err (ClientError "AccessDenied");
     on_delete_objects := on_delete_objects quiet;
     on_upload_file := on_upload_file quiet;
     on_download_file := on_download_file quiet;
     on_copy := on_copy quiet;
     on_glob := on_glob quiet |}.

(** A backend on which [delete_objects] answers, and reports every key as
    not deleted. *)
Definition delete_reports_errors : backend :=
  {| on_list_objects_v2 := on_list_objects_v2 quiet;
     on_head_object := on_head_object quiet;
     on_copy_object := on_copy_object quiet;
     on_delete_objects := fun _ objs => Ok {| Errors := objs |};
     on_upload_file := on_upload_file quiet;
     on_download_file := on_download_file quiet;
     on_copy := on_copy quiet;
     on_glob := on_glob quiet |}.

Definition deleter (bkt : string) : S3Transfer :=
  init (spec_of bkt "" (Some delete_action)).

(** *** Listing *)

(** The test of [list_files] on a key, as a boolean: every key passes when
    the pattern is [None] or empty; otherwise the key passes when
    [re.match] finds a match of the pattern on its base name. *)
Definition passes (re : re_module) (file_pattern : option string) (key : string) : bool :=
  match file_pattern with
  | Some p =>
      if PyStr.truthy file_pattern then
        match re_match re p (PyStr.basename key) with
        | Returned b => b
        | _ => false
        end
      else true
  | None => true
  end.

(** The value [list_files] stores for a key, from the answer of
    [head_object]. *)
Definition info (head : string -> string -> head_response) (bkt key : string)
    : file_info :=
  {| size := ContentLength (head bkt key);
     modified_time := LastModified (head bkt key) |}.

(** The keys of a list of objects that pass the test. *)
Definition passing (re : re_module) (file_pattern : option string)
    (objs : list s3_object) : list string :=
  List.filter (passes re file_pattern) (List.map Key objs).

(** The dict built from a list of objects. *)
Definition collect (re : re_module) (file_pattern : option string)
    (head : string -> string -> head_response) (bkt : string)
    (objs : list s3_object) (m : gmap string file_info) : gmap string file_info :=
  fold_left
    (fun m o => if passes re file_pattern (Key o)
                then <[Key o := info head bkt (Key o)]> m else m)
    objs m.

(** The pages of a listing: the backend answers the request [kwargs] with
    [page kwargs]; the pages that follow are those of the request with the
    token of the page, up to the page that has no token. *)
Inductive paged (page : list_kwargs -> list_response)
    : list_kwargs -> list list_response -> Prop :=
| paged_last kwargs :
    NextContinuationToken (page kwargs) = None ->
    paged page kwargs [page kwargs]
| paged_next kwargs token ps :
    NextContinuationToken (page kwargs) = Some token ->
    paged page (with_token kwargs token) ps ->
    paged page kwargs (page kwargs :: ps).

(** The objects of a list of pages. *)
Definition objects (ps : list list_response) : list s3_object :=
  List.concat (List.map Contents ps).

(** A backend whose listing and metadata requests answer, and do not
    depend on the history, and a pattern that [re.match] accepts. *)
Definition serves (re : re_module) (w : world) (file_pattern : option string)
    (page : list_kwargs -> list_response)
    (head : string -> string -> head_response) : Prop :=
  (forall history kwargs, w history (ListObjectsV2 kwargs) = Ok (page kwargs)) /\
  (forall history bkt key, w history (HeadObject bkt key) = Ok (head bkt key)) /\
  (forall p s, file_pattern = Some p -> exists b, re_match re p s = Returned b).

(** A request that carries the cap on the page size, if it is a listing. *)
Definition capped (c : call) : Prop :=
  match c with
  | ListObjectsV2 kwargs => kw_MaxKeys kwargs = 100%Z
  | _ => True
  end.

(** *** Example buckets *)

Definition lister (bkt : string) : S3Transfer := init (spec_of bkt "" None).

(** A bucket with one object under [in/], listed on one page. *)
Definition report_page : list_response :=
  {| KeyCount := 1;
     Contents := [ {| Key := "in/report.csv.bak" |} ];
     NextContinuationToken := None |}.

Definition report_head (bkt key : string) : head_response :=
  {| ContentLength := 7; LastModified := 1700000000 |}.

Definition one_object : backend :=
  {| on_list_objects_v2 := fun _ => Ok report_page;
     on_head_object := fun bkt key => Ok (report_head bkt key);
     on_copy_object := on_copy_object quiet;
     on_delete_objects := on_delete_objects quiet;
     on_upload_file := on_upload_file quiet;
     on_download_file := on_download_file quiet;
     on_copy := on_copy quiet;
     on_glob := on_glob quiet |}.

(** A response that reports no key and still carries a token. *)
Definition empty_page_with_token : list_response :=
  {| KeyCount := 0; Contents := []; NextContinuationToken := Some "next" |}.

Definition empty_then_more : backend :=
  {| on_list_objects_v2 := fun _ => Ok empty_page_with_token;
     on_head_object := on_head_object quiet;
     on_copy_object := on_copy_object quiet;
     on_delete_objects := on_delete_objects quiet;
     on_upload_file := on_upload_file quiet;
     on_download_file := on_download_file quiet;
     on_copy := on_copy quiet;
     on_glob := on_glob quiet |}.

(** A bucket of 250 objects [data/0.csv] ... [data/249.csv], listed on
    three pages of 100, 100 and 50 objects. *)
Definition numbered (i : nat) : s3_object :=
  {| Key := "data/" +:+ NilZero.string_of_uint (Nat.to_uint i) +:+ ".csv" |}.

Definition page_of (first count : nat) (next : option string) : list_response :=
  {| KeyCount := Z.of_nat count;
     Contents := List.map numbered (List.seq first count);
     NextContinuationToken := next |}.

Definition three_pages (kwargs : list_kwargs) : list_response :=
  match kw_ContinuationToken kwargs with
  | None => page_of 0 100 (Some "p2")
  | Some t =>
      if String.eqb t "p2" then page_of 100 100 (Some "p3")
      else page_of 200 50 None
  end.

Definition head_of_size (bkt key : string) : head_response :=
  {| ContentLength := Z.of_nat (String.length key); LastModified := 1700000000 |}.

Definition big_bucket : backend :=
  {| on_list_objects_v2 := fun kwargs => Ok (three_pages kwargs);
     on_head_object := fun bkt key => Ok (head_of_size bkt key);
     on_copy_object := on_copy_object quiet;
     on_delete_objects := on_delete_objects quiet;
     on_upload_file := on_upload_file quiet;
     on_download_file := on_download_file quiet;
     on_copy := on_copy quiet;
     on_glob := on_glob quiet |}.

Definition big_pages : list list_response :=
  [page_of 0 100 (Some "p2"); page_of 100 100 (Some "p3"); page_of 200 50 None].

(** *** Transfers *)

(** The upload request of [push_files_from_worker] for a local file. *)
Definition upload_of (self : S3Transfer) (file : string) : call :=
  UploadFile file (bucket (spec self))
    (directory (spec self) +:+ "/" +:+ PyStr.basename file)
    (if bucket_owner_full_control self then Some "bucket-owner-full-control" else None).

(** The copy request of [transfer_files] for a key. *)
Definition copy_of (self dest : S3Transfer) (file : string) : call :=
  Copy (bucket (spec self)) file (bucket (spec dest))
    (directory (spec dest) +:+ "/" +:+ PyStr.basename file).

(** The download request of [pull_files_to_worker] for a key. *)
Definition download_of (self : S3Transfer) (local_staging_directory file : string)
    : call :=
  DownloadFile (bucket (spec self)) file
    (local_staging_directory +:+ "/" +:+ PyStr.basename file).

(** The status of a batch, from the failures of its requests. *)
Definition batch_status (failed : list bool) : Z :=
  if existsb (fun b => b) failed then 1%Z else 0%Z.

(** A staging directory of five files, and a backend that refuses the
    third of them. *)
Definition staged : list string :=
  ["stage/a.txt"; "stage/b.txt"; "stage/c.txt"; "stage/d.txt"; "stage/e.txt"].

Definition third_refused : backend :=
  {| on_list_objects_v2 := on_list_objects_v2 quiet;
     on_head_object := on_head_object quiet;
     on_copy_object := on_copy_object quiet;
     on_delete_objects := on_delete_objects quiet;
     on_upload_file := fun file _ _ =>
       if String.eqb file "stage/c.txt" then Err (ClientError "InternalError")
       else Ok tt;
     on_download_file := on_download_file quiet;
     on_copy := on_copy quiet;
     on_glob := fun _ => Ok staged |}.

Definition uploader : S3Transfer := init (spec_of "bkt" "inbox" None).

(** *** Invariants of traces *)

(** A computation whose requests all satisfy [P]: whatever the trace it
    starts from, it only appends to it, and what it appends satisfies [P]. *)
Definition emits {A} (P : call -> Prop) (m : M A) : Prop :=
  forall tr, exists cs, snd (m tr) = tr ++ cs /\ Forall P cs.

(** A computation that returns only when none of its requests raised. *)
Definition clean (w : world) {A} (m : M A) : Prop :=
  forall tr a tr',
    m tr = (Returned a, tr') ->
    exists cs, tr' = tr ++ cs /\ existsb (fun b => b) (failures w tr cs) = false.

(** The requests of the post-copy action: copies inside the bucket of the
    handler and quiet deletes in that bucket. *)
Definition disposition_request (self : S3Transfer) (c : call) : Prop :=
  match c with
  | CopyObject bkt src_bkt _ _ => bkt = bucket (spec self) /\ src_bkt = bucket (spec self)
  | DeleteObjects bkt _ quiet => bkt = bucket (spec self) /\ quiet = true
  | _ => False
  end.

(** The requests of a listing: pages of the bucket of the handler, under
    the prefix asked for and with the cap, and metadata of keys of that
    bucket. *)
Definition listing_request (self : S3Transfer) (directory : option string)
    (c : call) : Prop :=
  match c with
  | ListObjectsV2 kwargs =>
      kw_Bucket kwargs = bucket (spec self) /\
      kw_MaxKeys kwargs = 100%Z /\
      kw_Prefix kwargs = (if PyStr.truthy directory then directory else None)
  | HeadObject bkt _ => bkt = bucket (spec self)
  | _ => False
  end.

(** In a trace, every delete is the delete of one key and comes right after
    a copy of that key, in the same bucket, that did not raise. *)
Definition deletes_follow_copies (w : world) (tr : list call) : Prop :=
  forall pre c post,
    tr = pre ++ c :: post -> is_delete_objects c = true ->
    exists pre' bkt file key,
      c = DeleteObjects bkt [file] true /\
      pre = pre' ++ [CopyObject bkt bkt file key] /\
      raises w pre' (CopyObject bkt bkt file key) = false.

(** A computation that keeps this property of the trace. *)
Definition keeps_deletes_after_copies (w : world) {A} (m : M A) : Prop :=
  forall tr, deletes_follow_copies w tr -> deletes_follow_copies w (snd (m tr)).

Definition is_head_object (c : call) : bool :=
  match c with HeadObject _ _ => true | _ => false end.

(** The requests of a listing over given pages: for each page the listing
    request, then one metadata request per key of the page that passes, in
    the order of the page; the request of the next page carries the token
    of the page. *)
Fixpoint requests (re : re_module) (file_pattern : option string) (bkt : string)
    (kwargs : list_kwargs) (ps : list list_response) : list call :=
  match ps with
  | [] => []
  | p :: ps' =>
      ListObjectsV2 kwargs
      :: List.map (HeadObject bkt) (passing re file_pattern (Contents p))
      ++ match NextContinuationToken p with
         | Some token => requests re file_pattern bkt (with_token kwargs token) ps'
         | None => []
         end
  end.

(** A backend that hands out a token with every page. *)
Definition endless_page : list_response :=
  {| KeyCount := 1;
     Contents := [ {| Key := "in/a.csv" |} ];
     NextContinuationToken := Some "again" |}.

Definition endless : backend :=
  {| on_list_objects_v2 := fun _ => Ok endless_page;
     on_head_object := fun bkt key => Ok (head_of_size bkt key);
     on_copy_object := on_copy_object quiet;
     on_delete_objects := on_delete_objects quiet;
     on_upload_file := on_upload_file quiet;
     on_download_file := on_download_file quiet;
     on_copy := on_copy quiet;
     on_glob := on_glob quiet |}.

(** The access-control argument of the uploads of a handler built from a
    specification: absent only when the protocol switches it off. *)
Definition acl_of (sp : Spec) : option string :=
  match protocol_bucket_owner_full_control sp with
  | Some false => None
  | _ => Some "bucket-owner-full-control"
  end.

(** The upload requests of a handler built from [sp]. *)
Definition upload_request (sp : Spec) (c : call) : Prop :=
  match c with
  | UploadFile file bkt key acl =>
      bkt = bucket sp /\
      key = directory sp +:+ "/" +:+ PyStr.basename file /\
      acl = acl_of sp
  | _ => False
  end.

(** A string without ['/']. *)
Definition no_slash (s : string) : Prop :=
  ~ In "/"%char (list_ascii_of_string s).

(** A request of a transfer that names its target by the leaf name of what
    it moves. *)
Definition keeps_leaf_name (c : call) : Prop :=
  match c with
  | UploadFile file _ key _ => PyStr.basename key = PyStr.basename file
  | DownloadFile _ key file => PyStr.basename file = PyStr.basename key
  | Copy _ src_key _ key => PyStr.basename key = PyStr.basename src_key
  | _ => True
  end.



(** * Properties *)

(** ** The pattern engine: a full match is a match *)

Module MiniReFacts.
Import MiniRe.

(** The matcher succeeds with a continuation that accepts more. *)
Lemma run_mono (r : regex) : forall bol s k1 k2,
  (forall b t, is_Some (k1 b t) -> is_Some (k2 b t)) ->
  is_Some (run r bol s k1) -> is_Some (run r bol s k2).
Proof.
  induction r as [| c | | | | r1 IH1 r2 IH2 | r1 IH1 r2 IH2 | r1 IH1];
    intros bol s k1 k2 Hk; simpl.
  - apply Hk.
  - destruct s as [|x s]; [auto|]. destruct (Ascii.eqb x c); [apply Hk|auto].
  - destruct s as [|x s]; [auto|]. destruct (Ascii.eqb x newline); [auto|apply Hk].
  - destruct bol; [apply Hk|auto].
  - destruct s as [|x [|y s]]; [apply Hk| |auto].
    destruct (Ascii.eqb x newline); [apply Hk|auto].
  - apply IH1. intros b t. now apply IH2.
  - intros H.
    destruct (run r1 bol s k1) as [e|] eqn:E1.
    + assert (H1 : is_Some (run r1 bol s k2)) by (apply (IH1 _ _ k1); [exact Hk|]; rewrite E1; eauto).
      destruct H1 as [e' ->]. eauto.
    + destruct (run r1 bol s k2); [eauto|]. now apply (IH2 _ _ k1).
  - generalize (List.length s). intros n. revert bol s.
    induction n as [|n IHn]; intros bol s; [apply Hk|].
    intros H.
    match type of H with
    | is_Some (match ?m with _ => _ end) => destruct m as [e|] eqn:E1
    end.
    + match goal with
      | |- is_Some (match ?m with _ => _ end) =>
          assert (H1 : is_Some m)
      end.
      { eapply IH1; [|rewrite E1; eauto].
        intros b t. simpl. destruct (Nat.ltb _ _); [apply IHn|apply Hk]. }
      destruct H1 as [e' ->]. eauto.
    + match goal with
      | |- is_Some (match ?m with _ => _ end) => destruct m
      end; [eauto|]. now apply Hk.
Qed.

Lemma fullmatch_is_match (p s : string) :
  py_fullmatch p s = Returned true -> py_match p s = Returned true.
Proof.
  unfold py_fullmatch, py_match. destruct (compile p) as [r|]; [|discriminate].
  intros [= H]. f_equal. apply bool_decide_eq_true in H. apply bool_decide_eq_true.
  unfold fullmatch_at in H. unfold match_at.
  eapply run_mono; [|exact H]. intros b t _. eauto.
Qed.

End MiniReFacts.

(** ** Running computations *)

Section Running.

Variable re : re_module.
Variable w : world.

Lemma bind_returned {A B} (m : M A) (f : A -> M B) tr a tr' :
  m tr = (Returned a, tr') -> bind m f tr = f a tr'.
Proof. unfold bind. intros ->. reflexivity. Qed.

Lemma bind_raised {A B} (m : M A) (f : A -> M B) tr e tr' :
  m tr = (Raised e, tr') -> bind m f tr = (Raised e, tr').
Proof. unfold bind. intros ->. reflexivity. Qed.

Lemma invoke_ok c tr a :
  w tr c = Ok a -> invoke w c tr = (Returned a, tr ++ [c]).
Proof. unfold invoke. intros ->. reflexivity. Qed.

Lemma invoke_err c tr e :
  w tr c = Err e -> invoke w c tr = (Raised e, tr ++ [c]).
Proof. unfold invoke. intros ->. reflexivity. Qed.

Lemma invoke_list_ok kwargs tr (p : list_response) :
  w tr (ListObjectsV2 kwargs) = Ok p ->
  invoke w (ListObjectsV2 kwargs) tr = (Returned p, tr ++ [ListObjectsV2 kwargs]).
Proof. exact (invoke_ok (ListObjectsV2 kwargs) tr p). Qed.

Lemma invoke_head_ok bkt key tr (h : head_response) :
  w tr (HeadObject bkt key) = Ok h ->
  invoke w (HeadObject bkt key) tr = (Returned h, tr ++ [HeadObject bkt key]).
Proof. exact (invoke_ok (HeadObject bkt key) tr h). Qed.

Lemma invoke_answers c tr :
  answers w -> exists a, invoke w c tr = (Returned a, tr ++ [c]).
Proof.
  intros Hw. specialize (Hw tr c). unfold raises in Hw.
  destruct (w tr c) as [a|e] eqn:E; [|discriminate].
  exists a. now apply invoke_ok.
Qed.

(** A loop whose body always returns, and extends the trace by calls that
    depend on the element only. *)
Lemma for_each_trace {A} (l : list A) (body : A -> M unit) (calls : A -> list call) :
  (forall x tr, In x l -> body x tr = (Returned tt, tr ++ calls x)) ->
  forall tr, for_each l body tr = (Returned tt, tr ++ flat_map calls l).
Proof.
  unfold for_each. induction l as [|x l IH]; intros Hbody tr; simpl.
  - unfold ret. now rewrite app_nil_r.
  - erewrite bind_returned by (apply Hbody; now left).
    rewrite IH by (intros; apply Hbody; now right).
    now rewrite app_assoc.
Qed.

Section PostCopy.

Variable self : S3Transfer.
Variable d : gmap string string.
Hypothesis Hpca : postCopyAction (spec self) = Some d.

Lemma post_copy_action_lookup k v tr :
  d !! k = Some v -> post_copy_action self k tr = (Returned v, tr).
Proof. unfold post_copy_action, getitem. rewrite Hpca. intros ->. reflexivity. Qed.

Lemma action_is_lookup v a tr :
  d !! "action" = Some v -> action_is self a tr = (Returned (String.eqb v a), tr).
Proof.
  intros H. unfold action_is.
  erewrite bind_returned by (eapply post_copy_action_lookup; eassumption). reflexivity.
Qed.


Lemma post_copy_one_rename dest pattern sub name file tr :
  answers w ->
  d !! "action" = Some "rename" ->
  d !! "destination" = Some dest ->
  d !! "pattern" = Some pattern ->
  d !! "sub" = Some sub ->
  re_sub re pattern sub (dest +:+ PyStr.basename file) = Returned (name file) ->
  post_copy_one re w self file tr =
    (Returned tt, tr ++ copy_then_delete (bucket (spec self)) dest name file).
Proof.
  intros Hw Ha Hd Hp Hs Hre. unfold post_copy_one.
  erewrite bind_returned by (eapply action_is_lookup; eassumption). simpl String.eqb.
  erewrite bind_returned.
  2:{ erewrite bind_returned by (eapply post_copy_action_lookup; eassumption).
      erewrite bind_returned by (eapply post_copy_action_lookup; eassumption).
      erewrite bind_returned by (eapply post_copy_action_lookup; eassumption).
      unfold lift. rewrite Hre. reflexivity. }
  erewrite bind_returned by (eapply post_copy_action_lookup; eassumption).
  destruct (invoke_answers (CopyObject (bucket (spec self)) (bucket (spec self)) file
                              (dest +:+ "/" +:+ name file)) tr Hw) as [a Ea].
  erewrite bind_returned by exact Ea.
  destruct (invoke_answers (DeleteObjects (bucket (spec self)) [file] true)
              (tr ++ [CopyObject (bucket (spec self)) (bucket (spec self)) file
                        (dest +:+ "/" +:+ name file)]) Hw) as [a' Ea'].
  erewrite bind_returned by exact Ea'.
  unfold ret, copy_then_delete. now rewrite <- app_assoc.
Qed.


(** The rename disposition, given the outcome of the substitution. *)
Lemma handle_rename dest pattern sub name files tr :
  answers w ->
  d !! "action" = Some "rename" ->
  d !! "destination" = Some dest ->
  d !! "pattern" = Some pattern ->
  d !! "sub" = Some sub ->
  (forall file, In file files ->
     re_sub re pattern sub (dest +:+ PyStr.basename file) = Returned (name file)) ->
  handle_post_copy_action re w self files tr =
    (Returned 0%Z,
     tr ++ flat_map (copy_then_delete (bucket (spec self)) dest name) files).
Proof.
  intros Hw Ha Hd Hp Hs Hre. unfold handle_post_copy_action.
  erewrite bind_returned by (eapply action_is_lookup; eassumption). simpl String.eqb.
  erewrite bind_returned by reflexivity.
  erewrite bind_returned by (eapply action_is_lookup; eassumption). simpl String.eqb.
  erewrite bind_returned by (eapply action_is_lookup; eassumption). simpl String.eqb.
  erewrite bind_returned.
  2:{ apply for_each_trace. intros x tr0 Hx.
      apply (post_copy_one_rename dest pattern sub name); auto. }
  reflexivity.
Qed.

End PostCopy.

End Running.

(** ** The post-copy action *)

Lemma answers_stateless_quiet : answers (stateless quiet).
Proof. intros history c. destruct c; reflexivity. Qed.

Lemma rename_action_sub :
  MiniRe.py_sub "^tmp_" "done_" ("archive/" +:+ PyStr.basename "incoming/tmp_report.csv")
  = Returned "archive/tmp_report.csv".
Proof. vm_compute. reflexivity. Qed.

(** C1, as stated, fails: with pattern [^tmp_], replacement [done_] and
    destination [archive/], the action on [incoming/tmp_report.csv] succeeds
    but no copy to [archive/done_report.csv] is among the requests made. *)
Lemma rename_example_no_done_key :
  let run := handle_post_copy_action MiniRe.engine (stateless quiet) (renamer "bkt")
               ["incoming/tmp_report.csv"] [] in
  fst run = Returned 0%Z /\
  ~ In (CopyObject "bkt" "bkt" "incoming/tmp_report.csv" "archive/done_report.csv")
      (snd run).
Proof.
  vm_compute. split; [reflexivity|].
  intros [H|[H|[]]]; discriminate H.
Qed.

(** C1 (amended): for the rename disposition with pattern [^tmp_],
    replacement [done_] and destination [archive/], the substitution is
    applied to [archive/tmp_report.csv], the destination followed by the base
    name of the key; the anchored pattern does not match there and the name
    is left as it is.  On a backend that answers, the action on
    [incoming/tmp_report.csv] makes two requests: a copy of that key, in its
    bucket, to a key that ends with [archive/tmp_report.csv], and then the
    delete of [incoming/tmp_report.csv]; it returns 0. *)
Theorem rename_example (w : world) (bkt : string) :
  answers w ->
  re_sub MiniRe.engine "^tmp_" "done_"
    ("archive/" +:+ PyStr.basename "incoming/tmp_report.csv")
  = Returned "archive/tmp_report.csv" /\
  exists prefix : string,
    handle_post_copy_action MiniRe.engine w (renamer bkt) ["incoming/tmp_report.csv"] []
    = (Returned 0%Z,
       [CopyObject bkt bkt "incoming/tmp_report.csv" (prefix +:+ "archive/tmp_report.csv");
        DeleteObjects bkt ["incoming/tmp_report.csv"] true]).
Proof.
  intros Hw. split; [exact rename_action_sub|].
  exists "archive//".
  rewrite (handle_rename MiniRe.engine w (renamer bkt) rename_action eq_refl
             "archive/" "^tmp_" "done_" (fun _ => "archive/tmp_report.csv")
             ["incoming/tmp_report.csv"] [] Hw); try reflexivity.
  intros file [<-|[]]. exact rename_action_sub.
Qed.

Lemma rename_example_witness :
  exists prefix : string,
    handle_post_copy_action MiniRe.engine (stateless quiet) (renamer "bkt")
      ["incoming/tmp_report.csv"] []
    = (Returned 0%Z,
       [CopyObject "bkt" "bkt" "incoming/tmp_report.csv"
          (prefix +:+ "archive/tmp_report.csv");
        DeleteObjects "bkt" ["incoming/tmp_report.csv"] true]).
Proof.
  exact (proj2 (rename_example (stateless quiet) "bkt" answers_stateless_quiet)).
Defined.

(** C2 at the key [incoming/report.csv], moved to [archive]: the object is
    copied to [archive/incoming/report.csv], the destination followed by the
    whole key, and not to [archive/report.csv], the destination followed by
    the base name; the original key is then deleted. *)
Theorem move_keeps_whole_key :
  handle_post_copy_action MiniRe.engine (stateless quiet) (mover "bkt")
    ["incoming/report.csv"] []
  = (Returned 0%Z,
     [CopyObject "bkt" "bkt" "incoming/report.csv" "archive/incoming/report.csv";
      DeleteObjects "bkt" ["incoming/report.csv"] true])
  /\ "archive" +:+ "/" +:+ PyStr.basename "incoming/report.csv" = "archive/report.csv"
  /\ "archive/incoming/report.csv" <> "archive/report.csv".
Proof. vm_compute. repeat split; try reflexivity. discriminate. Qed.



Section Propagates.

Variable w : world.









End Propagates.








(** ** Listing *)

Lemma count_calls_app p tr1 tr2 :
  count_calls p (tr1 ++ tr2) = count_calls p tr1 + count_calls p tr2.
Proof. unfold count_calls. now rewrite List.filter_app, length_app. Qed.

Lemma count_list_heads bkt keys :
  count_calls is_list_objects (List.map (HeadObject bkt) keys) = 0.
Proof. unfold count_calls. induction keys; simpl; auto. Qed.

Section Listing.

Variable re : re_module.
Variable w : world.
Variable self : S3Transfer.
Variable file_pattern : option string.
Variable page : list_kwargs -> list_response.
Variable head : string -> string -> head_response.
Hypothesis Hserves : serves re w file_pattern page head.

Lemma skipped_passes key tr :
  skipped re file_pattern (PyStr.basename key) tr
  = (Returned (negb (passes re file_pattern key)), tr).
Proof.
  destruct Hserves as (_ & _ & Hre).
  unfold skipped, passes. destruct file_pattern as [p|]; [|reflexivity].
  destruct (PyStr.truthy (Some p)); [|reflexivity].
  destruct (Hre p (PyStr.basename key) eq_refl) as [b Hb].
  unfold bind, lift. rewrite Hb. reflexivity.
Qed.

Lemma list_one_run o m tr :
  list_one re w self file_pattern o m tr
  = (Returned (collect re file_pattern head (bucket (spec self)) [o] m),
     tr ++ List.map (HeadObject (bucket (spec self))) (passing re file_pattern [o])).
Proof.
  unfold list_one, collect, passing. simpl.
  erewrite bind_returned by apply skipped_passes.
  destruct (passes re file_pattern (Key o)); simpl.
  - destruct Hserves as (_ & Hhead & _).
    erewrite bind_returned by (apply invoke_head_ok; apply Hhead). reflexivity.
  - unfold ret. now rewrite app_nil_r.
Qed.

Lemma for_fold_list_one objs : forall m tr,
  for_fold objs m (list_one re w self file_pattern) tr
  = (Returned (collect re file_pattern head (bucket (spec self)) objs m),
     tr ++ List.map (HeadObject (bucket (spec self))) (passing re file_pattern objs)).
Proof.
  induction objs as [|o objs IH]; intros m tr.
  - simpl. unfold ret, passing. simpl. now rewrite app_nil_r.
  - simpl for_fold. erewrite bind_returned by apply list_one_run.
    rewrite IH. unfold collect, passing. simpl.
    destruct (passes re file_pattern (Key o)); simpl.
    + now rewrite <- app_assoc.
    + now rewrite app_nil_r.
Qed.

Lemma collect_app objs1 objs2 m :
  collect re file_pattern head (bucket (spec self)) (objs1 ++ objs2) m
  = collect re file_pattern head (bucket (spec self)) objs2 (collect re file_pattern head (bucket (spec self)) objs1 m).
Proof. unfold collect. apply fold_left_app. Qed.

(** The loop over a listing all of whose pages report objects. *)
Lemma list_loop_paged kwargs ps :
  paged page kwargs ps ->
  Forall (fun p => KeyCount p <> 0%Z) ps ->
  forall fuel m tr, List.length ps <= fuel ->
  exists tr',
    list_loop re w fuel self file_pattern kwargs m tr
    = (Returned (Files (collect re file_pattern head (bucket (spec self)) (objects ps) m)), tr ++ tr') /\
    count_calls is_list_objects tr' = List.length ps.
Proof.
  destruct Hserves as (Hlist & _ & _).
  induction 1 as [kwargs Htok | kwargs token ps Htok Hps IH];
    intros Hnz fuel m tr Hfuel.
  - destruct fuel as [|fuel]; [simpl in Hfuel; lia|].
    inversion Hnz as [|? ? Hp _]; subst.
    eexists. split.
    + simpl list_loop.
      erewrite bind_returned by (apply invoke_list_ok; apply Hlist).
      apply Z.eqb_neq in Hp. rewrite Hp. cbn [negb].
      erewrite bind_returned by apply for_fold_list_one.
      rewrite Htok. unfold ret, objects. simpl. rewrite app_nil_r.
      rewrite <- app_assoc. reflexivity.
    + rewrite count_calls_app, count_list_heads. reflexivity.
  - destruct fuel as [|fuel]; [simpl in Hfuel; lia|].
    inversion Hnz as [|? ? Hp Hnz']; subst.
    destruct (IH Hnz' fuel
                (collect re file_pattern head (bucket (spec self)) (Contents (page kwargs)) m)
                ((tr ++ [ListObjectsV2 kwargs]) ++
                 List.map (HeadObject (bucket (spec self))) (passing re file_pattern (Contents (page kwargs)))))
      as (tr' & Erun & Ecount); [simpl in Hfuel; lia|].
    eexists. split.
    + simpl list_loop.
      erewrite bind_returned by (apply invoke_list_ok; apply Hlist).
      apply Z.eqb_neq in Hp. rewrite Hp. cbn [negb].
      erewrite bind_returned by apply for_fold_list_one.
      rewrite Htok, Erun. unfold objects. simpl. rewrite collect_app.
      rewrite <- !app_assoc. reflexivity.
    + rewrite !count_calls_app, count_list_heads, Ecount. reflexivity.
Qed.

(** The loop over a listing one of whose pages reports no object. *)
Lemma list_loop_zero ps1 : forall kwargs p ps2,
  paged page kwargs (ps1 ++ p :: ps2) ->
  Forall (fun p => KeyCount p <> 0%Z) ps1 ->
  KeyCount p = 0%Z ->
  forall fuel m tr, List.length ps1 < fuel ->
  exists tr',
    list_loop re w fuel self file_pattern kwargs m tr = (Returned NothingFound, tr ++ tr') /\
    count_calls is_list_objects tr' = S (List.length ps1).
Proof.
  destruct Hserves as (Hlist & _ & _).
  induction ps1 as [|q ps1 IH]; intros kwargs p ps2 Hpaged Hnz Hzero fuel m tr Hfuel.
  - destruct fuel as [|fuel]; [simpl in Hfuel; lia|].
    assert (Hp : page kwargs = p) by (inversion Hpaged; reflexivity).
    exists [ListObjectsV2 kwargs]. split; [|reflexivity].
    simpl list_loop.
    erewrite bind_returned by (apply invoke_list_ok; apply Hlist).
    rewrite Hp, Hzero. reflexivity.
  - destruct fuel as [|fuel]; [simpl in Hfuel; lia|].
    inversion Hnz as [|? ? Hq Hnz']; subst.
    simpl in Hpaged.
    inversion Hpaged as [? Htok Hk Heq | ? token ? Htok Hrest Hk Heq]; subst.
    { destruct ps1; discriminate. }
    destruct (IH _ _ _ Hrest Hnz' Hzero fuel
                (collect re file_pattern head (bucket (spec self)) (Contents (page kwargs)) m)
                ((tr ++ [ListObjectsV2 kwargs]) ++
                 List.map (HeadObject (bucket (spec self))) (passing re file_pattern (Contents (page kwargs)))))
      as (tr' & Erun & Ecount); [simpl in Hfuel; lia|].
    eexists. split.
    + simpl list_loop.
      erewrite bind_returned by (apply invoke_list_ok; apply Hlist).
      apply Z.eqb_neq in Hq. rewrite Hq. cbn [negb].
      erewrite bind_returned by apply for_fold_list_one.
      rewrite Htok, Erun. rewrite <- !app_assoc. reflexivity.
    + rewrite !count_calls_app, count_list_heads, Ecount. reflexivity.
Qed.

End Listing.

(** *** The dict that is built *)

Lemma passes_spec re file_pattern key :
  passes re file_pattern key = true <->
  (PyStr.truthy file_pattern = false \/
   exists p, file_pattern = Some p /\
             re_match re p (PyStr.basename key) = Returned true).
Proof.
  unfold passes. destruct file_pattern as [p|].
  - destruct (PyStr.truthy (Some p)) eqn:Et.
    + split.
      * destruct (re_match re p (PyStr.basename key)) as [b| |] eqn:Em;
          try discriminate.
        intros ->. right. exists p. auto.
      * intros [H|(q & [= <-] & ->)]; [discriminate|reflexivity].
    + split; auto.
  - split; auto.
Qed.

Lemma passing_cons re file_pattern o objs :
  passing re file_pattern (o :: objs)
  = if passes re file_pattern (Key o)
    then Key o :: passing re file_pattern objs
    else passing re file_pattern objs.
Proof. reflexivity. Qed.

Lemma in_passing re file_pattern objs key :
  In key (passing re file_pattern objs) <->
  (exists o, In o objs /\ Key o = key) /\ passes re file_pattern key = true.
Proof.
  unfold passing. rewrite List.filter_In, List.in_map_iff.
  split; intros [(o & H1 & H2) H3]; (split; [exists o|]; auto).
Qed.

Lemma collect_cons re file_pattern head bkt o objs m :
  collect re file_pattern head bkt (o :: objs) m
  = collect re file_pattern head bkt objs
      (if passes re file_pattern (Key o)
       then <[Key o := info head bkt (Key o)]> m else m).
Proof. reflexivity. Qed.

(** A key of the dict is a key that passed, with the value of
    [head_object] for it; the other keys are as they were. *)
Lemma collect_lookup re file_pattern head bkt objs : forall m key,
  collect re file_pattern head bkt objs m !! key
  = if decide (key ∈ passing re file_pattern objs)
    then Some (info head bkt key) else m !! key.
Proof.
  induction objs as [|o objs IH]; intros m key.
  - case_decide as H; [|reflexivity]. now apply elem_of_nil in H.
  - rewrite collect_cons, IH, passing_cons.
    destruct (passes re file_pattern (Key o)); [|reflexivity].
    destruct (decide (key ∈ passing re file_pattern objs)) as [Hin|Hout].
    + case_decide as Hn; [reflexivity|].
      exfalso. apply Hn. apply elem_of_cons. now right.
    + destruct (decide (Key o = key)) as [<-|Hne].
      * rewrite lookup_insert_eq.
        case_decide as Hn; [reflexivity|].
        exfalso. apply Hn. apply elem_of_cons. now left.
      * rewrite lookup_insert_ne by exact Hne.
        case_decide as Hin; [|reflexivity].
        apply elem_of_cons in Hin as [->|Hin]; contradiction.
Qed.

(** With distinct keys, one entry is added per key that passes. *)
Lemma collect_size re file_pattern head bkt objs : forall m,
  NoDup (List.map Key objs) ->
  (forall o, In o objs -> m !! Key o = None) ->
  base.size (collect re file_pattern head bkt objs m)
  = base.size m + List.length (passing re file_pattern objs).
Proof.
  induction objs as [|o objs IH]; intros m Hnd Hfresh.
  - simpl. lia.
  - rewrite collect_cons, passing_cons.
    apply NoDup_cons in Hnd as [Hnotin Hnd].
    destruct (passes re file_pattern (Key o)).
    + rewrite IH; auto.
      * rewrite map_size_insert_None by (apply Hfresh; now left). simpl. lia.
      * intros o' Ho'. rewrite lookup_insert_ne; [apply Hfresh; now right|].
        intros Heq. apply Hnotin. rewrite Heq. apply list_elem_of_In.
        now apply List.in_map.
    + apply IH; auto. intros o' Ho'. apply Hfresh. now right.
Qed.

(** *** The requests of a listing, on any backend *)

Lemma skipped_trace re file_pattern filename tr :
  snd (skipped re file_pattern filename tr) = tr.
Proof.
  unfold skipped. destruct file_pattern as [p|]; [|reflexivity].
  destruct (PyStr.truthy (Some p)); [|reflexivity].
  unfold bind, lift. destruct (re_match re p filename); reflexivity.
Qed.

Lemma list_one_calls re w self file_pattern o m tr :
  exists hs, snd (list_one re w self file_pattern o m tr) = tr ++ hs /\
             Forall capped hs.
Proof.
  unfold list_one, bind.
  pose proof (skipped_trace re file_pattern (PyStr.basename (Key o)) tr) as Hs.
  destruct (skipped re file_pattern (PyStr.basename (Key o)) tr) as [[skip|e|] tr0];
    simpl in Hs; subst tr0;
    try (exists []; rewrite app_nil_r; split; [reflexivity|constructor]).
  destruct skip.
  - exists []. rewrite app_nil_r. split; [reflexivity|constructor].
  - exists [HeadObject (bucket (spec self)) (Key o)].
    split; [|repeat constructor].
    unfold invoke.
    destruct (w tr (HeadObject (bucket (spec self)) (Key o))); reflexivity.
Qed.

Lemma for_fold_list_one_calls re w self file_pattern objs : forall m tr,
  exists hs,
    snd (for_fold objs m (list_one re w self file_pattern) tr) = tr ++ hs /\
    Forall capped hs.
Proof.
  induction objs as [|o objs IH]; intros m tr.
  - exists []. rewrite app_nil_r. split; [reflexivity|constructor].
  - simpl for_fold. unfold bind.
    destruct (list_one_calls re w self file_pattern o m tr) as (hs & E & Hc).
    destruct (list_one re w self file_pattern o m tr) as [[m'|e|] tr0];
      simpl in E; subst tr0; try (exists hs; split; [reflexivity|assumption]).
    destruct (IH m' (tr ++ hs)) as (hs' & E' & Hc').
    exists (hs ++ hs'). rewrite E', app_assoc. split; [reflexivity|].
    apply Forall_app. split; assumption.
Qed.

Lemma list_loop_capped re w self file_pattern fuel : forall kwargs m tr,
  kw_MaxKeys kwargs = 100%Z ->
  exists cs,
    snd (list_loop re w fuel self file_pattern kwargs m tr) = tr ++ cs /\
    Forall capped cs.
Proof.
  induction fuel as [|fuel IH]; intros kwargs m tr Hcap.
  - exists []. rewrite app_nil_r. split; [reflexivity|constructor].
  - simpl list_loop. unfold bind at 1. unfold invoke at 1.
    destruct (w tr (ListObjectsV2 kwargs)) as [response|e].
    2:{ exists [ListObjectsV2 kwargs]. split; [reflexivity|]. repeat constructor.
        exact Hcap. }
    destruct (negb (KeyCount response =? 0)%Z).
    2:{ exists [ListObjectsV2 kwargs]. split; [reflexivity|]. repeat constructor.
        exact Hcap. }
    unfold bind.
    destruct (for_fold_list_one_calls re w self file_pattern (Contents response) m
                (tr ++ [ListObjectsV2 kwargs])) as (hs & E & Hc).
    destruct (for_fold (Contents response) m (list_one re w self file_pattern)
                (tr ++ [ListObjectsV2 kwargs])) as [[m'|e|] tr0];
      simpl in E; subst tr0.
    + destruct (NextContinuationToken response) as [token|].
      * destruct (IH (with_token kwargs token) m' ((tr ++ [ListObjectsV2 kwargs]) ++ hs))
          as (cs & E' & Hc'); [exact Hcap|].
        exists ([ListObjectsV2 kwargs] ++ hs ++ cs).
        rewrite E', <- !app_assoc. split; [reflexivity|].
        constructor; [exact Hcap|]. apply Forall_app. split; assumption.
      * exists ([ListObjectsV2 kwargs] ++ hs). rewrite <- app_assoc.
        split; [reflexivity|]. constructor; [exact Hcap|assumption].
    + exists ([ListObjectsV2 kwargs] ++ hs). rewrite <- app_assoc.
      split; [reflexivity|]. constructor; [exact Hcap|assumption].
    + exists ([ListObjectsV2 kwargs] ++ hs). rewrite <- app_assoc.
      split; [reflexivity|]. constructor; [exact Hcap|assumption].
Qed.

(** *** The listing claims *)

Lemma list_files_paged re w self directory file_pattern page head ps fuel :
  serves re w file_pattern page head ->
  paged page (first_kwargs self directory) ps ->
  Forall (fun p => KeyCount p <> 0%Z) ps ->
  List.length ps <= fuel ->
  fst (list_files re w fuel self directory file_pattern [])
  = Returned (Files (collect re file_pattern head (bucket (spec self)) (objects ps) ∅)) /\
  count_calls is_list_objects (snd (list_files re w fuel self directory file_pattern []))
  = List.length ps.
Proof.
  intros Hs Hp Hnz Hfuel. unfold list_files.
  destruct (list_loop_paged re w self file_pattern page head Hs _ _ Hp Hnz fuel ∅ [] Hfuel)
    as (tr' & -> & Hc).
  split; [reflexivity|exact Hc].
Qed.

Lemma list_files_zero re w self directory file_pattern page head ps1 p ps2 fuel :
  serves re w file_pattern page head ->
  paged page (first_kwargs self directory) (ps1 ++ p :: ps2) ->
  Forall (fun p => KeyCount p <> 0%Z) ps1 ->
  KeyCount p = 0%Z ->
  List.length ps1 < fuel ->
  fst (list_files re w fuel self directory file_pattern []) = Returned NothingFound /\
  count_calls is_list_objects (snd (list_files re w fuel self directory file_pattern []))
  = S (List.length ps1).
Proof.
  intros Hs Hp Hnz Hz Hfuel. unfold list_files.
  destruct (list_loop_zero re w self file_pattern page head Hs ps1 _ p ps2 Hp Hnz Hz
              fuel ∅ [] Hfuel) as (tr' & -> & Hc).
  split; [reflexivity|exact Hc].
Qed.

Lemma serves_stateless re file_pattern page head b :
  on_list_objects_v2 b = (fun kwargs => Ok (page kwargs)) ->
  on_head_object b = (fun bkt key => Ok (head bkt key)) ->
  (forall p s, file_pattern = Some p -> exists m, re_match re p s = Returned m) ->
  serves re (stateless b) file_pattern page head.
Proof.
  intros Hl Hh Hre. repeat split; [| |exact Hre]; intros; simpl.
  - now rewrite Hl.
  - now rewrite Hh.
Qed.

Lemma paged_big_pages directory :
  paged three_pages (first_kwargs (lister "bkt") directory) big_pages.
Proof.
  set (k1 := first_kwargs (lister "bkt") directory).
  apply (paged_next three_pages k1 "p2" _ eq_refl).
  apply (paged_next three_pages (with_token k1 "p2") "p3" _ eq_refl).
  apply (paged_last three_pages (with_token (with_token k1 "p2") "p3") eq_refl).
Qed.

Lemma big_pages_nonzero : Forall (fun p => KeyCount p <> 0%Z) big_pages.
Proof. repeat constructor; discriminate. Qed.

(** C3, as stated, fails: with the pattern [report], the object
    [in/report.csv.bak] is listed, although the pattern does not match the
    whole of its leaf name [report.csv.bak]. *)
Lemma prefix_match_is_listed :
  fst (list_files MiniRe.engine (stateless one_object) 1 (lister "bkt")
         None (Some "report") [])
  = Returned (Files {[ "in/report.csv.bak" :=
                         {| size := 7; modified_time := 1700000000 |} ]}) /\
  MiniRe.py_fullmatch "report" (PyStr.basename "in/report.csv.bak") = Returned false /\
  MiniRe.py_match "report" (PyStr.basename "in/report.csv.bak") = Returned true.
Proof. vm_compute. repeat split; reflexivity. Qed.

(** C3 (amended): on a backend that answers the listing, page after page up
    to the page without a token, each page reporting objects, and with a
    pattern [re.match] accepts, [list_files] returns a dict.  A key is in
    it if and only if it is the key of a listed object and either no
    pattern was given (or an empty one) or [re.match] finds a match of the
    pattern on the leaf name, the text after the last ['/'] of the key:
    a match at the start of the name, which need not reach its end.  The
    entry of a key has the size and the last-modified time [head_object]
    gives for that key.  When the keys listed are distinct, there are as many
    entries as objects that pass. *)
Theorem listing_filter (re : re_module) (w : world) (self : S3Transfer)
    (directory file_pattern : option string)
    (page : list_kwargs -> list_response) (head : string -> string -> head_response)
    (ps : list list_response) (fuel : nat) :
  serves re w file_pattern page head ->
  paged page (first_kwargs self directory) ps ->
  Forall (fun p => KeyCount p <> 0%Z) ps ->
  List.length ps <= fuel ->
  exists m : gmap string file_info,
    fst (list_files re w fuel self directory file_pattern []) = Returned (Files m) /\
    (forall key fi,
       m !! key = Some fi <->
       (exists o, In o (objects ps) /\ Key o = key) /\
       (PyStr.truthy file_pattern = false \/
        exists p, file_pattern = Some p /\
                  re_match re p (PyStr.basename key) = Returned true) /\
       fi = {| size := ContentLength (head (bucket (spec self)) key);
               modified_time := LastModified (head (bucket (spec self)) key) |}) /\
    (NoDup (List.map Key (objects ps)) ->
     base.size m = List.length (List.filter (passes re file_pattern)
                                  (List.map Key (objects ps)))).
Proof.
  intros Hs Hp Hnz Hfuel.
  destruct (list_files_paged re w self directory file_pattern page head ps fuel
              Hs Hp Hnz Hfuel) as [Hrun _].
  eexists. split; [exact Hrun|]. split.
  - intros key fi. rewrite collect_lookup, lookup_empty.
    rewrite <- passes_spec. case_decide as Hin.
    + apply list_elem_of_In, in_passing in Hin as [Ho Hpass].
      split.
      * intros [= <-]. auto.
      * intros (_ & _ & ->). reflexivity.
    + split; [discriminate|].
      intros (Ho & Hpass & _). exfalso. apply Hin.
      apply list_elem_of_In, in_passing. auto.
  - intros Hnd. rewrite collect_size; auto.
Qed.

Lemma listing_filter_witness :
  exists m : gmap string file_info,
    fst (list_files MiniRe.engine (stateless big_bucket) 3 (lister "bkt")
           (Some "data/") (Some ".*1\.csv") []) = Returned (Files m) /\
    m !! "data/241.csv" = Some {| size := 12; modified_time := 1700000000 |} /\
    m !! "data/242.csv" = None /\
    base.size m = 25.
Proof.
  destruct (listing_filter MiniRe.engine (stateless big_bucket) (lister "bkt")
              (Some "data/") (Some ".*1\.csv") three_pages head_of_size big_pages 3)
    as (m & Hrun & Hkeys & Hsize).
  - apply serves_stateless; [reflexivity..|].
    intros p s [= <-]. simpl. unfold MiniRe.py_match.
    destruct (MiniRe.compile ".*1\.csv") eqn:E; [eexists; reflexivity|].
    vm_compute in E. discriminate E.
  - apply paged_big_pages.
  - apply big_pages_nonzero.
  - simpl. lia.
  - exists m. split; [exact Hrun|]. split; [|split].
    + apply Hkeys. split; [|split; [|reflexivity]].
      * exists (numbered 241). split; [|reflexivity]. vm_compute. tauto.
      * right. eexists. split; [reflexivity|]. vm_compute. reflexivity.
    + destruct (m !! "data/242.csv") as [fi|] eqn:E; [|reflexivity].
      apply Hkeys in E as (_ & [H|(p & [= <-] & H)] & _); vm_compute in H; discriminate H.
    + rewrite Hsize; [vm_compute; reflexivity|].
      apply (bool_decide_unpack _). vm_compute. reflexivity.
Defined.

Lemma collect_none re file_pattern head bkt objs : forall m,
  (forall o, In o objs -> passes re file_pattern (Key o) = false) ->
  collect re file_pattern head bkt objs m = m.
Proof.
  induction objs as [|o objs IH]; intros m Hnone; [reflexivity|].
  rewrite collect_cons, (Hnone o) by now left.
  apply IH. intros o' Ho'. apply Hnone. now right.
Qed.

Lemma serves_one_object :
  serves MiniRe.engine (stateless one_object) (Some "zzz")
    (fun _ => report_page) report_head.
Proof.
  apply serves_stateless; [reflexivity..|].
  intros p s [= <-]. simpl. unfold MiniRe.py_match.
  destruct (MiniRe.compile "zzz") eqn:E; [eexists; reflexivity|].
  vm_compute in E. discriminate E.
Qed.

(** C4: when the first page of a listing reports a key count of zero,
    [list_files] returns [None] after that one request.  A listing that
    found objects, on every page, none of which passes the filter, returns
    the empty dict, and the empty dict is not [None]. *)
Theorem nothing_found_sentinel (re : re_module) (w : world) (self : S3Transfer)
    (directory file_pattern : option string)
    (page : list_kwargs -> list_response) (head : string -> string -> head_response)
    (ps : list list_response) (fuel : nat) :
  (forall (p : list_response) tr,
     w tr (ListObjectsV2 (first_kwargs self directory)) = Ok p ->
     KeyCount p = 0%Z ->
     list_files re w (S fuel) self directory file_pattern tr
     = (Returned NothingFound, tr ++ [ListObjectsV2 (first_kwargs self directory)])) /\
  (serves re w file_pattern page head ->
   paged page (first_kwargs self directory) ps ->
   Forall (fun p => KeyCount p <> 0%Z) ps ->
   List.length ps <= fuel ->
   (forall o, In o (objects ps) -> passes re file_pattern (Key o) = false) ->
   fst (list_files re w fuel self directory file_pattern []) = Returned (Files ∅)) /\
  Files ∅ <> NothingFound.
Proof.
  split; [|split].
  - intros p tr Hp Hz. unfold list_files. simpl list_loop.
    erewrite bind_returned by (apply invoke_list_ok; exact Hp).
    rewrite Hz. reflexivity.
  - intros Hs Hp Hnz Hfuel Hnone.
    destruct (list_files_paged re w self directory file_pattern page head ps fuel
                Hs Hp Hnz Hfuel) as [-> _].
    now rewrite collect_none.
  - discriminate.
Qed.

Lemma nothing_found_sentinel_witness :
  list_files MiniRe.engine (stateless quiet) 1 (lister "bkt") (Some "in/") (Some "zzz") []
  = (Returned NothingFound, [ListObjectsV2 (first_kwargs (lister "bkt") (Some "in/"))]) /\
  fst (list_files MiniRe.engine (stateless one_object) 1 (lister "bkt")
         (Some "in/") (Some "zzz") [])
  = Returned (Files ∅).
Proof.
  split.
  - apply (proj1 (nothing_found_sentinel MiniRe.engine (stateless quiet) (lister "bkt")
                    (Some "in/") (Some "zzz") (fun _ => empty_page_with_token)
                    head_of_size [] 0)
             {| KeyCount := 0; Contents := []; NextContinuationToken := None |} []);
      reflexivity.
  - apply (proj1 (proj2 (nothing_found_sentinel MiniRe.engine (stateless one_object)
                           (lister "bkt") (Some "in/") (Some "zzz")
                           (fun _ => report_page) report_head [report_page] 1))).
    + exact serves_one_object.
    + apply (paged_last (fun _ => report_page)
               (first_kwargs (lister "bkt") (Some "in/"))).
      reflexivity.
    + repeat constructor. discriminate.
    + simpl. lia.
    + intros o [<-|[]]. vm_compute. reflexivity.
Defined.

(** C5, as stated, fails: a response that reports no key ends the loop,
    with [None], although it carries a continuation token. *)
Lemma stops_with_token_present :
  NextContinuationToken empty_page_with_token = Some "next" /\
  list_files MiniRe.engine (stateless empty_then_more) 5 (lister "bkt") None None []
  = (Returned NothingFound, [ListObjectsV2 (first_kwargs (lister "bkt") None)]).
Proof. split; reflexivity. Qed.

(** C5 (amended): every listing request carries the cap of 100 keys, on any
    backend.  On a backend that answers the listing page after page, the
    loop stops at the first response that has no continuation token, and
    returns the dict, or that reports a key count of zero, and returns
    [None], token or not; up to that response it makes one request per
    page.  When three pages of 100, 100 and 50 objects are served, it makes
    exactly 3 listing requests, and the keys of the dict are the keys of
    these objects that pass the filter. *)
Theorem pagination (re : re_module) (w : world) (self : S3Transfer)
    (directory file_pattern : option string)
    (page : list_kwargs -> list_response) (head : string -> string -> head_response)
    (fuel : nat) :
  let run := list_files re w fuel self directory file_pattern [] in
  Forall capped (snd run) /\
  (serves re w file_pattern page head ->
   forall ps, paged page (first_kwargs self directory) ps -> List.length ps <= fuel ->
     (Forall (fun p => KeyCount p <> 0%Z) ps ->
      fst run = Returned (Files (collect re file_pattern head (bucket (spec self))
                                   (objects ps) ∅)) /\
      count_calls is_list_objects (snd run) = List.length ps) /\
     (forall ps1 p ps2,
        ps = ps1 ++ p :: ps2 ->
        Forall (fun p => KeyCount p <> 0%Z) ps1 ->
        KeyCount p = 0%Z ->
        fst run = Returned NothingFound /\
        count_calls is_list_objects (snd run) = S (List.length ps1))) /\
  (serves re w file_pattern page head ->
   forall p1 p2 p3,
     paged page (first_kwargs self directory) [p1; p2; p3] ->
     Forall (fun p => KeyCount p <> 0%Z) [p1; p2; p3] ->
     List.length (Contents p1) = 100 -> List.length (Contents p2) = 100 ->
     List.length (Contents p3) = 50 ->
     3 <= fuel ->
     count_calls is_list_objects (snd run) = 3 /\
     exists m : gmap string file_info,
       fst run = Returned (Files m) /\
       forall key, is_Some (m !! key) <->
                   In key (passing re file_pattern
                             (Contents p1 ++ Contents p2 ++ Contents p3))).
Proof.
  intros run. subst run. split; [|split].
  - unfold list_files.
    destruct (list_loop_capped re w self file_pattern fuel
                (first_kwargs self directory) ∅ [] eq_refl) as (cs & -> & Hc).
    exact Hc.
  - intros Hs ps Hp Hfuel. split.
    + intros Hnz. now apply (list_files_paged re w self directory file_pattern page head).
    + intros ps1 p ps2 -> Hnz Hz.
      apply (list_files_zero re w self directory file_pattern page head ps1 p ps2);
        auto.
      rewrite length_app in Hfuel. simpl in Hfuel. lia.
  - intros Hs p1 p2 p3 Hp Hnz _ _ _ Hfuel.
    destruct (list_files_paged re w self directory file_pattern page head [p1; p2; p3]
                fuel Hs Hp Hnz Hfuel) as [Hrun Hcount].
    split; [exact Hcount|].
    eexists. split; [exact Hrun|].
    intros key. rewrite collect_lookup, lookup_empty.
    unfold objects. simpl. rewrite app_nil_r.
    case_decide as Hin.
    + split; [intros _; now apply list_elem_of_In|eauto].
    + split; [intros [? [=]]|].
      intros H. exfalso. apply Hin. now apply list_elem_of_In.
Qed.

Lemma pagination_witness :
  let run := list_files MiniRe.engine (stateless big_bucket) 3 (lister "bkt")
               (Some "data/") None [] in
  List.length (objects big_pages) = 250 /\
  count_calls is_list_objects (snd run) = 3 /\
  exists m : gmap string file_info, fst run = Returned (Files m) /\ base.size m = 250.
Proof.
  intros run.
  destruct (proj2 (proj2 (pagination MiniRe.engine (stateless big_bucket) (lister "bkt")
                            (Some "data/") None three_pages head_of_size 3)))
    with (p1 := page_of 0 100 (Some "p2")) (p2 := page_of 100 100 (Some "p3"))
         (p3 := page_of 200 50 None)
    as (Hcount & m & Hrun & Hkeys).
  - apply serves_stateless; [reflexivity..|]. intros p s [=].
  - apply paged_big_pages.
  - apply big_pages_nonzero.
  - vm_compute. reflexivity.
  - vm_compute. reflexivity.
  - vm_compute. reflexivity.
  - lia.
  - split; [vm_compute; reflexivity|]. split; [exact Hcount|].
    exists m. split; [exact Hrun|].
    subst run. vm_compute in Hrun. injection Hrun as <-. vm_compute. reflexivity.
Defined.

(** ** Transfers *)

(** A loop that makes one request per element inside [try]/[except]: every
    request is made, and the status becomes 1 at the first that raises. *)
Lemma guarded_loop (w : world) (mk : string -> call) (files : list string) :
  forall (result : Z) tr,
    for_fold files result
      (fun file result =>
         try_except (invoke w (mk file) ;;; ret result) (fun _ => ret 1%Z)) tr
    = (Returned (if existsb (fun b => b) (failures w tr (List.map mk files))
                 then 1%Z else result),
       tr ++ List.map mk files).
Proof.
  induction files as [|file files IH]; intros result tr.
  - simpl. unfold ret. now rewrite app_nil_r.
  - simpl for_fold.
    assert (Hbody :
      try_except (invoke w (mk file) ;;; ret result) (fun _ => ret 1%Z) tr
      = (Returned (if raises w tr (mk file) then 1%Z else result), tr ++ [mk file])).
    { unfold try_except, bind, invoke, raises, ret.
      destruct (w tr (mk file)); reflexivity. }
    erewrite bind_returned by exact Hbody.
    rewrite IH. simpl. rewrite <- app_assoc. simpl.
    destruct (raises w tr (mk file)); simpl; [|reflexivity].
    destruct (existsb _ _); reflexivity.
Qed.

(** C6: [push_files_from_worker] makes the upload request of every file of
    the staging directory, in order, whether or not earlier ones raised,
    and returns 1 if at least one of them raised and 0 if none did.  For
    five files of which only the third fails, the status is 1 and the
    uploads of the first, second, fourth and fifth file are all made. *)
Theorem upload_batch (w : world) (self : S3Transfer)
    (local_staging_directory : string) (files : list string) :
  w [] (GlobGlob (local_staging_directory +:+ "/*")) = Ok files ->
  let run := push_files_from_worker w self local_staging_directory [] in
  let uploads := List.map (upload_of self) files in
  let failed := failures w [GlobGlob (local_staging_directory +:+ "/*")] uploads in
  run = (Returned (batch_status failed),
         GlobGlob (local_staging_directory +:+ "/*") :: uploads) /\
  (forall f1 f2 f3 f4 f5,
     files = [f1; f2; f3; f4; f5] ->
     failed = [false; false; true; false; false] ->
     fst run = Returned 1%Z /\
     Forall (fun f => In (upload_of self f) (snd run)) [f1; f2; f4; f5]).
Proof.
  intros Hglob run uploads failed.
  assert (Hrun : run = (Returned (batch_status failed),
                        GlobGlob (local_staging_directory +:+ "/*") :: uploads)).
  { subst run. unfold push_files_from_worker.
    erewrite bind_returned
      by (apply (invoke_ok w (GlobGlob (local_staging_directory +:+ "/*")) []); exact Hglob).
    apply (guarded_loop w (upload_of self) files 0%Z). }
  split; [exact Hrun|].
  intros f1 f2 f3 f4 f5 Hfiles Hfailed. rewrite Hrun, Hfailed.
  split; [reflexivity|].
  subst uploads. rewrite Hfiles. simpl.
  repeat constructor; simpl; tauto.
Qed.

Lemma upload_batch_witness :
  push_files_from_worker (stateless third_refused) uploader "stage" []
  = (Returned 1%Z,
     GlobGlob "stage/*" :: List.map (upload_of uploader) staged) /\
  In (UploadFile "stage/d.txt" "bkt" "inbox/d.txt" (Some "bucket-owner-full-control"))
     (snd (push_files_from_worker (stateless third_refused) uploader "stage" [])).
Proof.
  destruct (upload_batch (stateless third_refused) uploader "stage" staged eq_refl)
    as [Hrun Hfive].
  split; [exact Hrun|].
  destruct (Hfive _ _ _ _ _ eq_refl eq_refl) as [_ Hall].
  exact (proj1 (List.Forall_forall _ _) Hall "stage/d.txt"
           (or_intror (or_intror (or_introl eq_refl)))).
Defined.

(** X14: [pull_files_to_worker] makes the download request of every key, in
    order, into the staging directory under the base name of the key,
    whether or not earlier ones raised; it never raises, and returns 1 if
    at least one download raised and 0 if none did. *)
Lemma download_batch (w : world) (self : S3Transfer) (files : list string)
    (local_staging_directory : string) :
  let downloads := List.map (download_of self local_staging_directory) files in
  pull_files_to_worker w self files local_staging_directory []
  = (Returned (batch_status (failures w [] downloads)), downloads).
Proof.
  apply (guarded_loop w (download_of self local_staging_directory) files 0%Z).
Qed.

(** C9: when the destination handler is an [S3Transfer], [transfer_files]
    makes one copy request per file, from the key in the bucket of the
    source to the base name under the directory of the destination, in the
    bucket of the destination; it makes no other request, none on the local
    file system in particular, and returns the status 0, or 1 if a copy
    raised.  When the destination handler is of another class, or is not
    given, it makes no request, raises nothing and returns [None]. *)
Theorem transfer_pairing (w : world) (self : S3Transfer) (files : list string)
    (remote_spec : Spec) :
  (forall dest : S3Transfer,
     let run := transfer_files w self files remote_spec (Some (S3Handler dest)) [] in
     let copies := List.map (copy_of self dest) files in
     run = (Returned (Some (batch_status (failures w [] copies))), copies) /\
     (exists status, fst run = Returned (Some status) /\ (status = 0%Z \/ status = 1%Z)) /\
     Forall (fun c => is_copy c = true) (snd run) /\
     List.length (snd run) = List.length files) /\
  (forall class_name,
     transfer_files w self files remote_spec (Some (OtherHandler class_name)) []
     = (Returned None, [])) /\
  transfer_files w self files remote_spec None [] = (Returned None, []).
Proof.
  split; [|split; reflexivity].
  intros dest run copies.
  assert (Hrun : run = (Returned (Some (batch_status (failures w [] copies))), copies)).
  { subst run. unfold transfer_files.
    erewrite bind_returned by (apply (guarded_loop w (copy_of self dest) files 0%Z)).
    reflexivity. }
  split; [exact Hrun|]. rewrite Hrun. simpl. split; [|split].
  - eexists. split; [reflexivity|].
    unfold batch_status. destruct (existsb _ _); auto.
  - subst copies. apply Forall_forall. intros c Hc.
    apply list_elem_of_In, List.in_map_iff in Hc as (file & <- & _). reflexivity.
  - subst copies. apply length_map.
Qed.

(** C10: [pull_files] raises [NotImplementedError] whatever its arguments,
    and makes no request; so does [move_files_to_final_location]. *)
Theorem not_implemented (self : S3Transfer) (files : list string)
    (remote_spec : Spec) (tr : list call) :
  pull_files self files remote_spec tr = (Raised NotImplementedError, tr) /\
  move_files_to_final_location self files tr = (Raised NotImplementedError, tr).
Proof. split; reflexivity. Qed.

(** * Further properties of the handler *)

(** ** What a method requests *)

Section Emits.

Variable w : world.
Variable P : call -> Prop.

Lemma emits_ret {A} (a : A) : emits P (ret a).
Proof. intros tr. exists []. rewrite app_nil_r. split; [reflexivity|constructor]. Qed.

Lemma emits_raise {A} (e : exn) : emits P (@raise A e).
Proof. intros tr. exists []. rewrite app_nil_r. split; [reflexivity|constructor]. Qed.

Lemma emits_out_of_fuel {A} : emits P (@out_of_fuel A).
Proof. intros tr. exists []. rewrite app_nil_r. split; [reflexivity|constructor]. Qed.

Lemma emits_lift {A} (o : outcome A) : emits P (lift o).
Proof. intros tr. exists []. rewrite app_nil_r. split; [reflexivity|constructor]. Qed.

Lemma emits_getitem {V} (d : gmap string V) k : emits P (getitem d k).
Proof. unfold getitem. destruct (d !! k); [apply emits_ret|apply emits_raise]. Qed.

Lemma emits_invoke c : P c -> emits P (invoke w c).
Proof. intros Hc tr. exists [c]. split; [reflexivity|]. repeat constructor. exact Hc. Qed.

Lemma emits_bind {A B} (m : M A) (f : A -> M B) :
  emits P m -> (forall a, emits P (f a)) -> emits P (bind m f).
Proof.
  intros Hm Hf tr. destruct (Hm tr) as (cs & E & Hcs). unfold bind.
  destruct (m tr) as [[a|e|] tr0]; simpl in E; subst tr0;
    try (exists cs; split; [reflexivity|assumption]).
  destruct (Hf a (tr ++ cs)) as (cs' & E' & Hcs').
  exists (cs ++ cs'). rewrite E', app_assoc. split; [reflexivity|].
  apply Forall_app. split; assumption.
Qed.

Lemma emits_try_except {A} (body : M A) (handler : exn -> M A) :
  emits P body -> (forall e, emits P (handler e)) -> emits P (try_except body handler).
Proof.
  intros Hm Hf tr. destruct (Hm tr) as (cs & E & Hcs). unfold try_except.
  destruct (body tr) as [[a|e|] tr0]; simpl in E; subst tr0;
    try (exists cs; split; [reflexivity|assumption]).
  destruct (Hf e (tr ++ cs)) as (cs' & E' & Hcs').
  exists (cs ++ cs'). rewrite E', app_assoc. split; [reflexivity|].
  apply Forall_app. split; assumption.
Qed.

Lemma emits_for_fold {A S} (body : A -> S -> M S) (l : list A) :
  (forall x s, emits P (body x s)) -> forall s, emits P (for_fold l s body).
Proof.
  intros Hbody. induction l as [|x l IH]; intros s; simpl.
  - apply emits_ret.
  - apply emits_bind; [apply Hbody|]. intros s'. apply IH.
Qed.

End Emits.

Lemma emits_post_copy_action P self k : emits P (post_copy_action self k).
Proof.
  unfold post_copy_action. destruct (postCopyAction (spec self));
    [apply emits_getitem|apply emits_raise].
Qed.

Lemma emits_action_is P self a : emits P (action_is self a).
Proof.
  unfold action_is. apply emits_bind; [apply emits_post_copy_action|].
  intros v. apply emits_ret.
Qed.

Lemma emits_post_copy_one re w self file :
  emits (disposition_request self) (post_copy_one re w self file).
Proof.
  unfold post_copy_one.
  apply emits_bind; [apply emits_action_is|]. intros is_rename.
  apply emits_bind.
  { destruct is_rename; [|apply emits_ret].
    apply emits_bind; [apply emits_post_copy_action|]. intros destination.
    apply emits_bind; [apply emits_post_copy_action|]. intros pattern.
    apply emits_bind; [apply emits_post_copy_action|]. intros sub.
    apply emits_lift. }
  intros new_file.
  apply emits_bind; [apply emits_post_copy_action|]. intros destination.
  apply emits_bind; [apply emits_invoke; simpl; auto|]. intros _.
  apply emits_bind; [apply emits_invoke; simpl; auto|]. intros _.
  apply emits_ret.
Qed.

(** X1: whatever the configuration, the files and the behaviour of the
    backend, the post-copy action only makes copy requests from the bucket
    of the handler into that same bucket and quiet delete requests on that
    bucket: no other bucket is named and no other kind of request is
    made. *)
Theorem post_copy_stays_in_bucket (re : re_module) (w : world) (self : S3Transfer)
    (files : list string) :
  Forall (disposition_request self)
    (snd (handle_post_copy_action re w self files [])).
Proof.
  assert (H : emits (disposition_request self) (handle_post_copy_action re w self files)).
  { unfold handle_post_copy_action.
    apply emits_bind; [apply emits_action_is|]. intros is_delete.
    apply emits_bind.
    { destruct is_delete; [|apply emits_ret].
      apply emits_bind; [apply emits_invoke; simpl; auto|]. intros _. apply emits_ret. }
    intros _.
    apply emits_bind; [apply emits_action_is|]. intros is_move.
    apply emits_bind.
    { destruct is_move; [apply emits_ret|apply emits_action_is]. }
    intros move_or_rename.
    apply emits_bind; [|intros _; apply emits_ret].
    destruct move_or_rename; [|apply emits_ret].
    unfold for_each. apply emits_for_fold. intros x _. apply emits_post_copy_one. }
  destruct (H []) as (cs & -> & Hcs). exact Hcs.
Qed.

Lemma emits_skipped P re file_pattern filename :
  emits P (skipped re file_pattern filename).
Proof.
  unfold skipped. destruct file_pattern as [p|]; [|apply emits_ret].
  destruct (PyStr.truthy (Some p)); [|apply emits_ret].
  apply emits_bind; [apply emits_lift|]. intros m. apply emits_ret.
Qed.

Lemma emits_list_loop re w self directory file_pattern fuel :
  forall kwargs m,
    listing_request self directory (ListObjectsV2 kwargs) ->
    emits (listing_request self directory)
      (list_loop re w fuel self file_pattern kwargs m).
Proof.
  induction fuel as [|fuel IH]; intros kwargs m Hkw; simpl list_loop.
  - apply emits_out_of_fuel.
  - apply emits_bind;
      [apply (emits_invoke w _ (ListObjectsV2 kwargs)); exact Hkw|].
    intros response.
    destruct (negb (KeyCount response =? 0)%Z); [|apply emits_ret].
    apply emits_bind.
    { apply emits_for_fold. intros o m0. unfold list_one.
      apply emits_bind; [apply emits_skipped|]. intros skip.
      destruct skip; [apply emits_ret|].
      apply emits_bind;
        [apply (emits_invoke w _ (HeadObject (bucket (spec self)) (Key o)));
         reflexivity|].
      intros file_attr.
      apply emits_ret. }
    intros m'. destruct (NextContinuationToken response) as [token|];
      [|apply emits_ret].
    apply IH. exact Hkw.
Qed.

(** X2: whatever the backend answers and however long the loop runs, every
    request of [list_files] is either a listing request on the bucket of the
    handler, with the cap of 100 keys and with the prefix asked for (no
    prefix when the directory is [None] or empty), or a metadata request on
    a key of that bucket. *)
Theorem listing_requests (re : re_module) (w : world) (self : S3Transfer)
    (directory file_pattern : option string) (fuel : nat) :
  Forall (listing_request self directory)
    (snd (list_files re w fuel self directory file_pattern [])).
Proof.
  unfold list_files.
  destruct (emits_list_loop re w self directory file_pattern fuel
              (first_kwargs self directory) ∅) with (tr := @nil call)
    as (cs & -> & Hcs).
  - simpl. auto.
  - exact Hcs.
Qed.

(** ** Returning means that every request answered *)

Lemma failures_app w tr cs1 cs2 :
  failures w tr (cs1 ++ cs2) = failures w tr cs1 ++ failures w (tr ++ cs1) cs2.
Proof.
  revert tr. induction cs1 as [|c cs1 IH]; intros tr; simpl.
  - now rewrite app_nil_r.
  - rewrite IH, <- app_assoc. reflexivity.
Qed.

Section Clean.

Variable w : world.

Lemma clean_ret {A} (a : A) : clean w (ret a).
Proof.
  intros tr a' tr' [= <- <-]. exists []. rewrite app_nil_r. split; reflexivity.
Qed.

Lemma clean_raise {A} (e : exn) : clean w (@raise A e).
Proof. intros tr a tr' [=]. Qed.

Lemma clean_lift {A} (o : outcome A) : clean w (lift o).
Proof.
  intros tr a tr'. unfold lift. intros [= -> <-].
  exists []. rewrite app_nil_r. split; reflexivity.
Qed.

Lemma clean_getitem {V} (d : gmap string V) k : clean w (getitem d k).
Proof. unfold getitem. destruct (d !! k); [apply clean_ret|apply clean_raise]. Qed.

Lemma clean_invoke c : clean w (invoke w c).
Proof.
  intros tr a tr'. unfold invoke. destruct (w tr c) as [x|e] eqn:E; intros [= <- <-].
  exists [c]. split; [reflexivity|]. simpl. unfold raises. now rewrite E.
Qed.

Lemma clean_bind {A B} (m : M A) (f : A -> M B) :
  clean w m -> (forall a, clean w (f a)) -> clean w (bind m f).
Proof.
  intros Hm Hf tr b tr'. unfold bind.
  destruct (m tr) as [[a|e|] tr0] eqn:E; try discriminate.
  intros Hfa.
  destruct (Hm tr a tr0 E) as (cs & -> & Hcs).
  destruct (Hf a (tr ++ cs) b tr' Hfa) as (cs' & -> & Hcs').
  exists (cs ++ cs'). rewrite app_assoc. split; [reflexivity|].
  rewrite failures_app, existsb_app, Hcs, Hcs'. reflexivity.
Qed.

Lemma clean_for_fold {A S} (body : A -> S -> M S) (l : list A) :
  (forall x s, clean w (body x s)) -> forall s, clean w (for_fold l s body).
Proof.
  intros Hbody. induction l as [|x l IH]; intros s; simpl.
  - apply clean_ret.
  - apply clean_bind; [apply Hbody|]. intros s'. apply IH.
Qed.

Lemma clean_post_copy_action self k : clean w (post_copy_action self k).
Proof.
  unfold post_copy_action. destruct (postCopyAction (spec self));
    [apply clean_getitem|apply clean_raise].
Qed.

Lemma clean_action_is self a : clean w (action_is self a).
Proof.
  unfold action_is. apply clean_bind; [apply clean_post_copy_action|].
  intros v. apply clean_ret.
Qed.

Lemma clean_post_copy_one re self file : clean w (post_copy_one re w self file).
Proof.
  unfold post_copy_one.
  apply clean_bind; [apply clean_action_is|]. intros is_rename.
  apply clean_bind.
  { destruct is_rename; [|apply clean_ret].
    apply clean_bind; [apply clean_post_copy_action|]. intros destination.
    apply clean_bind; [apply clean_post_copy_action|]. intros pattern.
    apply clean_bind; [apply clean_post_copy_action|]. intros sub.
    apply clean_lift. }
  intros new_file.
  apply clean_bind; [apply clean_post_copy_action|]. intros destination.
  apply clean_bind; [apply clean_invoke|]. intros _.
  apply clean_bind; [apply clean_invoke|]. intros _.
  apply clean_ret.
Qed.

Lemma clean_handle_post_copy_action re self files :
  clean w (handle_post_copy_action re w self files).
Proof.
  unfold handle_post_copy_action.
  apply clean_bind; [apply clean_action_is|]. intros is_delete.
  apply clean_bind.
  { destruct is_delete; [|apply clean_ret].
    apply clean_bind; [apply clean_invoke|]. intros _. apply clean_ret. }
  intros _.
  apply clean_bind; [apply clean_action_is|]. intros is_move.
  apply clean_bind.
  { destruct is_move; [apply clean_ret|apply clean_action_is]. }
  intros move_or_rename.
  apply clean_bind; [|intros _; apply clean_ret].
  destruct move_or_rename; [|apply clean_ret].
  unfold for_each. apply clean_for_fold. intros x _. apply clean_post_copy_one.
Qed.

Lemma clean_skipped re file_pattern filename :
  clean w (skipped re file_pattern filename).
Proof.
  unfold skipped. destruct file_pattern as [p|]; [|apply clean_ret].
  destruct (PyStr.truthy (Some p)); [|apply clean_ret].
  apply clean_bind; [apply clean_lift|]. intros m. apply clean_ret.
Qed.

Lemma clean_list_loop re self file_pattern fuel :
  forall kwargs m, clean w (list_loop re w fuel self file_pattern kwargs m).
Proof.
  induction fuel as [|fuel IH]; intros kwargs m; simpl list_loop.
  - intros tr a tr' [=].
  - apply clean_bind; [apply (clean_invoke (ListObjectsV2 kwargs))|].
    intros response.
    destruct (negb (KeyCount response =? 0)%Z); [|apply clean_ret].
    apply clean_bind.
    { apply clean_for_fold. intros o m0. unfold list_one.
      apply clean_bind; [apply clean_skipped|]. intros skip.
      destruct skip; [apply clean_ret|].
      apply clean_bind;
        [apply (clean_invoke (HeadObject (bucket (spec self)) (Key o)))|].
      intros file_attr. apply clean_ret. }
    intros m'. destruct (NextContinuationToken response) as [token|];
      [apply IH|apply clean_ret].
Qed.

End Clean.

(** X3: [handle_post_copy_action] has no [try]: when it returns its status,
    none of the requests it made had raised, on any backend and for any
    configuration. *)
Theorem post_copy_returns_only_if_all_answered (re : re_module) (w : world)
    (self : S3Transfer) (files : list string) (status : Z) :
  fst (handle_post_copy_action re w self files []) = Returned status ->
  existsb (fun b => b)
    (failures w [] (snd (handle_post_copy_action re w self files []))) = false.
Proof.
  intros H.
  destruct (handle_post_copy_action re w self files []) as [r tr'] eqn:E.
  simpl in H. subst r.
  destruct (clean_handle_post_copy_action w re self files [] status tr' E)
    as (cs & -> & Hcs).
  exact Hcs.
Qed.

Lemma post_copy_returns_only_if_all_answered_witness :
  existsb (fun b => b)
    (failures (stateless quiet) []
       (snd (handle_post_copy_action MiniRe.engine (stateless quiet) (mover "bkt")
               ["a"; "b"] [])))
  = false.
Proof.
  exact (post_copy_returns_only_if_all_answered MiniRe.engine (stateless quiet)
           (mover "bkt") ["a"; "b"] 0%Z eq_refl).
Defined.

(** X4: [list_files] has no [try] around its requests either: when it
    returns, [None] or a dict, none of the listing and metadata requests it
    made had raised; a dict is never built from a listing in which a
    request failed. *)
Theorem listing_returns_only_if_all_answered (re : re_module) (w : world)
    (self : S3Transfer) (directory file_pattern : option string) (fuel : nat)
    (result : listing) :
  fst (list_files re w fuel self directory file_pattern []) = Returned result ->
  existsb (fun b => b)
    (failures w [] (snd (list_files re w fuel self directory file_pattern []))) = false.
Proof.
  intros H. unfold list_files in *.
  destruct (list_loop re w fuel self file_pattern (first_kwargs self directory) ∅ [])
    as [r tr'] eqn:E.
  simpl in H. subst r.
  destruct (clean_list_loop w re self file_pattern fuel _ _ [] result tr' E)
    as (cs & -> & Hcs).
  exact Hcs.
Qed.

Lemma listing_returns_only_if_all_answered_witness :
  existsb (fun b => b)
    (failures (stateless one_object) []
       (snd (list_files MiniRe.engine (stateless one_object) 1 (lister "bkt")
               None (Some "report") [])))
  = false.
Proof.
  apply (listing_returns_only_if_all_answered MiniRe.engine (stateless one_object)
           (lister "bkt") None (Some "report") 1
           (Files {[ "in/report.csv.bak" :=
                       {| size := 7; modified_time := 1700000000 |} ]})).
  vm_compute. reflexivity.
Defined.

(** ** An original is deleted only after its copy *)

Lemma snoc_split {A} (tr : list A) c pre x post :
  tr ++ [c] = pre ++ x :: post ->
  (post = [] /\ pre = tr /\ x = c) \/
  (exists post', post = post' ++ [c] /\ tr = pre ++ x :: post').
Proof.
  intros H. destruct post as [|y post] using rev_ind.
  - left. apply app_inj_tail in H as [-> ->]. auto.
  - right. clear IHpost. exists post.
    change (pre ++ x :: post ++ [y]) with (pre ++ (x :: post) ++ [y]) in H.
    rewrite app_assoc in H. apply app_inj_tail in H as [-> ->]. auto.
Qed.

Section DeletesFollowCopies.

Variable w : world.

Lemma dfc_nil : deletes_follow_copies w [].
Proof. intros pre c post H. destruct pre; discriminate H. Qed.

Lemma dfc_snoc_other tr c :
  deletes_follow_copies w tr -> is_delete_objects c = false ->
  deletes_follow_copies w (tr ++ [c]).
Proof.
  intros Htr Hc pre x post E Hx.
  apply snoc_split in E as [(_ & _ & ->)|(post' & _ & ->)].
  - congruence.
  - exact (Htr pre x post' eq_refl Hx).
Qed.

Lemma dfc_snoc_delete tr bkt file key :
  deletes_follow_copies w tr ->
  raises w tr (CopyObject bkt bkt file key) = false ->
  deletes_follow_copies w
    ((tr ++ [CopyObject bkt bkt file key]) ++ [DeleteObjects bkt [file] true]).
Proof.
  intros Htr Hc pre x post E Hx.
  apply snoc_split in E as [(_ & -> & ->)|(post' & _ & E)].
  - exists tr, bkt, file, key. auto.
  - exact (dfc_snoc_other tr (CopyObject bkt bkt file key) Htr eq_refl
             pre x post' E Hx).
Qed.

Lemma keeps_ret {A} (a : A) : keeps_deletes_after_copies w (ret a).
Proof. intros tr H. exact H. Qed.

Lemma keeps_raise {A} (e : exn) : keeps_deletes_after_copies w (@raise A e).
Proof. intros tr H. exact H. Qed.

Lemma keeps_lift {A} (o : outcome A) : keeps_deletes_after_copies w (lift o).
Proof. intros tr H. exact H. Qed.

Lemma keeps_bind {A B} (m : M A) (f : A -> M B) :
  keeps_deletes_after_copies w m ->
  (forall a, keeps_deletes_after_copies w (f a)) ->
  keeps_deletes_after_copies w (bind m f).
Proof.
  intros Hm Hf tr Htr. specialize (Hm tr Htr). unfold bind.
  destruct (m tr) as [[a|e|] tr0]; simpl in Hm; [|exact Hm..].
  now apply Hf.
Qed.

Lemma keeps_for_fold {A S} (body : A -> S -> M S) (l : list A) :
  (forall x s, keeps_deletes_after_copies w (body x s)) ->
  forall s, keeps_deletes_after_copies w (for_fold l s body).
Proof.
  intros Hbody. induction l as [|x l IH]; intros s; simpl.
  - apply keeps_ret.
  - apply keeps_bind; [apply Hbody|]. intros s'. apply IH.
Qed.

Lemma keeps_post_copy_action self k :
  keeps_deletes_after_copies w (post_copy_action self k).
Proof.
  unfold post_copy_action, getitem. destruct (postCopyAction (spec self)) as [d|];
    [destruct (d !! k)|]; intros tr H; exact H.
Qed.

Lemma keeps_action_is self a : keeps_deletes_after_copies w (action_is self a).
Proof.
  unfold action_is. apply keeps_bind; [apply keeps_post_copy_action|].
  intros v. apply keeps_ret.
Qed.

(** The copy and the delete of one file. *)
Lemma keeps_copy_then_delete bkt file key :
  keeps_deletes_after_copies w
    (invoke w (CopyObject bkt bkt file key) ;;;
     invoke w (DeleteObjects bkt [file] true) ;;; ret tt).
Proof.
  intros tr Htr. unfold bind, invoke, ret.
  destruct (w tr (CopyObject bkt bkt file key)) as [x|e] eqn:Ec; simpl.
  - assert (Hok : raises w tr (CopyObject bkt bkt file key) = false)
      by (unfold raises; now rewrite Ec).
    destruct (w (tr ++ [CopyObject bkt bkt file key]) (DeleteObjects bkt [file] true));
      simpl; now apply dfc_snoc_delete.
  - now apply dfc_snoc_other.
Qed.

Lemma keeps_post_copy_one re self file :
  keeps_deletes_after_copies w (post_copy_one re w self file).
Proof.
  unfold post_copy_one.
  apply keeps_bind; [apply keeps_action_is|]. intros is_rename.
  apply keeps_bind.
  { destruct is_rename; [|apply keeps_ret].
    apply keeps_bind; [apply keeps_post_copy_action|]. intros destination.
    apply keeps_bind; [apply keeps_post_copy_action|]. intros pattern.
    apply keeps_bind; [apply keeps_post_copy_action|]. intros sub.
    apply keeps_lift. }
  intros new_file.
  apply keeps_bind; [apply keeps_post_copy_action|]. intros destination.
  apply keeps_copy_then_delete.
Qed.

End DeletesFollowCopies.

(** X5: when the action is not [delete] (a move, a rename, or any other
    word), every delete request of the post-copy action is the delete of
    one key and comes right after the copy request of that key, in the same
    bucket, and that copy did not raise; on no backend is an original
    deleted when its copy has failed. *)
Theorem delete_only_after_copy (re : re_module) (w : world) (self : S3Transfer)
    (files : list string) :
  (forall d, postCopyAction (spec self) = Some d -> d !! "action" <> Some "delete") ->
  deletes_follow_copies w (snd (handle_post_copy_action re w self files [])).
Proof.
  intros Hnot. unfold handle_post_copy_action.
  destruct (postCopyAction (spec self)) as [d|] eqn:Hpca.
  2:{ unfold bind, action_is, post_copy_action. rewrite Hpca. simpl. apply dfc_nil. }
  destruct (d !! "action") as [a|] eqn:Ha.
  2:{ unfold bind, action_is, post_copy_action, getitem. rewrite Hpca, Ha. simpl.
      apply dfc_nil. }
  assert (Hd : String.eqb a "delete" = false).
  { apply String.eqb_neq. intros ->. exact (Hnot d eq_refl Ha). }
  erewrite bind_returned by (eapply action_is_lookup; eassumption). rewrite Hd.
  erewrite bind_returned by reflexivity.
  match goal with
  | |- deletes_follow_copies _ (snd (?m [])) =>
      cut (keeps_deletes_after_copies w m);
        [intros K; apply K; apply dfc_nil|]
  end.
  apply keeps_bind; [apply keeps_action_is|]. intros is_move.
  apply keeps_bind.
  { destruct is_move; [apply keeps_ret|apply keeps_action_is]. }
  intros move_or_rename.
  apply keeps_bind; [|intros _; apply keeps_ret].
  destruct move_or_rename; [|apply keeps_ret].
  unfold for_each. apply keeps_for_fold. intros x _. apply keeps_post_copy_one.
Qed.

Lemma delete_only_after_copy_witness :
  deletes_follow_copies (stateless copy_denied)
    (snd (handle_post_copy_action MiniRe.engine (stateless copy_denied) (mover "bkt")
            ["a"; "b"] [])).
Proof.
  apply delete_only_after_copy.
  intros d [= <-]. vm_compute. discriminate.
Defined.

(** ** The requests of a listing, one by one *)

Lemma passing_app re file_pattern objs1 objs2 :
  passing re file_pattern (objs1 ++ objs2)
  = passing re file_pattern objs1 ++ passing re file_pattern objs2.
Proof. unfold passing. now rewrite List.map_app, List.filter_app. Qed.

Lemma count_head_heads bkt keys :
  count_calls is_head_object (List.map (HeadObject bkt) keys) = List.length keys.
Proof. unfold count_calls. induction keys; simpl; auto. Qed.

Lemma list_loop_requests re w self file_pattern page head kwargs ps :
  serves re w file_pattern page head ->
  paged page kwargs ps ->
  Forall (fun p => KeyCount p <> 0%Z) ps ->
  forall fuel m tr, List.length ps <= fuel ->
    snd (list_loop re w fuel self file_pattern kwargs m tr)
    = tr ++ requests re file_pattern (bucket (spec self)) kwargs ps.
Proof.
  intros Hs. pose proof Hs as (Hlist & _ & _).
  induction 1 as [kwargs Htok | kwargs token ps Htok Hps IH];
    intros Hnz fuel m tr Hfuel.
  - destruct fuel as [|fuel]; [simpl in Hfuel; lia|].
    inversion Hnz as [|? ? Hp _]; subst.
    simpl list_loop.
    erewrite bind_returned by (apply invoke_list_ok; apply Hlist).
    apply Z.eqb_neq in Hp. rewrite Hp. cbn [negb].
    erewrite bind_returned by (eapply for_fold_list_one; exact Hs).
    rewrite Htok. simpl. rewrite Htok, app_nil_r, <- app_assoc. reflexivity.
  - destruct fuel as [|fuel]; [simpl in Hfuel; lia|].
    inversion Hnz as [|? ? Hp Hnz']; subst.
    simpl list_loop.
    erewrite bind_returned by (apply invoke_list_ok; apply Hlist).
    apply Z.eqb_neq in Hp. rewrite Hp. cbn [negb].
    erewrite bind_returned by (eapply for_fold_list_one; exact Hs).
    rewrite Htok, IH by (auto; simpl in Hfuel; lia).
    simpl. rewrite Htok, <- !app_assoc. reflexivity.
Qed.

Lemma count_head_requests re file_pattern bkt page kwargs ps :
  paged page kwargs ps ->
  count_calls is_head_object (requests re file_pattern bkt kwargs ps)
  = List.length (passing re file_pattern (objects ps)).
Proof.
  induction 1 as [kwargs Htok | kwargs token ps Htok Hps IH]; simpl.
  - rewrite Htok, app_nil_r. unfold objects. simpl. rewrite app_nil_r.
    change (count_calls is_head_object
              (List.map (HeadObject bkt)
                 (passing re file_pattern (Contents (page kwargs))))
            = List.length (passing re file_pattern (Contents (page kwargs)))).
    apply count_head_heads.
  - rewrite Htok.
    change (count_calls is_head_object
              (List.map (HeadObject bkt)
                 (passing re file_pattern (Contents (page kwargs)))
               ++ requests re file_pattern bkt (with_token kwargs token) ps)
            = List.length (passing re file_pattern (objects (page kwargs :: ps)))).
    rewrite count_calls_app, count_head_heads, IH.
    unfold objects. simpl. rewrite passing_app, length_app. reflexivity.
Qed.

(** X6: on a backend that answers the listing page after page, each page
    reporting objects, the requests of [list_files] are, page by page, the
    listing request (the first without a token, each later one with the
    token of the page before) followed by one metadata request for each key
    of the page that passes the filter, in the order of the page.  A key
    that does not pass costs no request: there are as many metadata
    requests as keys that pass. *)
Theorem listing_request_sequence (re : re_module) (w : world) (self : S3Transfer)
    (directory file_pattern : option string)
    (page : list_kwargs -> list_response) (head : string -> string -> head_response)
    (ps : list list_response) (fuel : nat) :
  serves re w file_pattern page head ->
  paged page (first_kwargs self directory) ps ->
  Forall (fun p => KeyCount p <> 0%Z) ps ->
  List.length ps <= fuel ->
  snd (list_files re w fuel self directory file_pattern [])
  = requests re file_pattern (bucket (spec self)) (first_kwargs self directory) ps /\
  count_calls is_head_object (snd (list_files re w fuel self directory file_pattern []))
  = List.length (passing re file_pattern (objects ps)).
Proof.
  intros Hs Hp Hnz Hfuel. unfold list_files.
  rewrite (list_loop_requests re w self file_pattern page head _ ps Hs Hp Hnz fuel ∅ []
             Hfuel).
  simpl. split; [reflexivity|]. now apply (count_head_requests _ _ _ page).
Qed.

Lemma listing_request_sequence_witness :
  count_calls is_head_object
    (snd (list_files MiniRe.engine (stateless big_bucket) 3 (lister "bkt")
            (Some "data/") None []))
  = 250.
Proof.
  destruct (listing_request_sequence MiniRe.engine (stateless big_bucket) (lister "bkt")
              (Some "data/") None three_pages head_of_size big_pages 3)
    as [_ Hcount].
  - apply serves_stateless; [reflexivity..|]. intros p s [=].
  - apply paged_big_pages.
  - apply big_pages_nonzero.
  - simpl. lia.
  - rewrite Hcount. vm_compute. reflexivity.
Defined.

(** ** A backend that never stops handing out tokens *)

Lemma list_loop_endless re w self file_pattern page head :
  serves re w file_pattern page head ->
  (forall kwargs, KeyCount (page kwargs) <> 0%Z /\
                  NextContinuationToken (page kwargs) <> None) ->
  forall fuel kwargs m tr,
  exists tr',
    list_loop re w fuel self file_pattern kwargs m tr = (OutOfFuel, tr ++ tr') /\
    count_calls is_list_objects tr' = fuel.
Proof.
  intros Hs Hpage. pose proof Hs as (Hlist & _ & _).
  induction fuel as [|fuel IH]; intros kwargs m tr.
  - exists []. rewrite app_nil_r. split; reflexivity.
  - destruct (Hpage kwargs) as [Hp Htok].
    destruct (NextContinuationToken (page kwargs)) as [token|] eqn:Et; [|congruence].
    destruct (IH (with_token kwargs token)
                (collect re file_pattern head (bucket (spec self))
                   (Contents (page kwargs)) m)
                ((tr ++ [ListObjectsV2 kwargs]) ++
                 List.map (HeadObject (bucket (spec self)))
                   (passing re file_pattern (Contents (page kwargs)))))
      as (tr' & Erun & Ecount).
    eexists. split.
    + simpl list_loop.
      erewrite bind_returned by (apply invoke_list_ok; apply Hlist).
      apply Z.eqb_neq in Hp. rewrite Hp. cbn [negb].
      erewrite bind_returned by (eapply for_fold_list_one; exact Hs).
      rewrite Et, Erun, <- !app_assoc. reflexivity.
    + rewrite !count_calls_app, count_list_heads, Ecount. reflexivity.
Qed.

(** X7: [list_files] puts no bound of its own on the number of pages.  On a
    backend whose every page reports objects and carries a token, the loop
    does not end: whatever the fuel [n], the run is cut off after exactly
    [n] listing requests, without a result. *)
Theorem pagination_unbounded (re : re_module) (w : world) (self : S3Transfer)
    (directory file_pattern : option string)
    (page : list_kwargs -> list_response) (head : string -> string -> head_response)
    (fuel : nat) :
  serves re w file_pattern page head ->
  (forall kwargs, KeyCount (page kwargs) <> 0%Z /\
                  NextContinuationToken (page kwargs) <> None) ->
  fst (list_files re w fuel self directory file_pattern []) = OutOfFuel /\
  count_calls is_list_objects (snd (list_files re w fuel self directory file_pattern []))
  = fuel.
Proof.
  intros Hs Hpage. unfold list_files.
  destruct (list_loop_endless re w self file_pattern page head Hs Hpage fuel
              (first_kwargs self directory) ∅ []) as (tr' & -> & Hc).
  split; [reflexivity|exact Hc].
Qed.

Lemma pagination_unbounded_witness :
  fst (list_files MiniRe.engine (stateless endless) 7 (lister "bkt") None None [])
  = OutOfFuel /\
  count_calls is_list_objects
    (snd (list_files MiniRe.engine (stateless endless) 7 (lister "bkt") None None []))
  = 7.
Proof.
  apply (pagination_unbounded MiniRe.engine (stateless endless) (lister "bkt") None None
           (fun _ => endless_page) head_of_size 7).
  - apply serves_stateless; [reflexivity..|]. intros p s [=].
  - intros kwargs. split; discriminate.
Defined.

(** ** Uploads of a handler built from a specification *)

Lemma upload_of_init sp file : upload_request sp (upload_of (init sp) file).
Proof.
  unfold upload_request, upload_of, init, acl_of. simpl.
  destruct (protocol_bucket_owner_full_control sp) as [[|]|]; auto.
Qed.

(** X8: for a handler built from a specification, every upload of
    [push_files_from_worker] goes to the bucket of the specification, under
    its directory and the base name of the local file, and carries the
    access-control argument [bucket-owner-full-control] unless the protocol
    sets [bucket_owner_full_control] to false: the flag is on by default. *)
Theorem uploads_carry_acl (w : world) (sp : Spec) (local_staging_directory : string)
    (files : list string) :
  w [] (GlobGlob (local_staging_directory +:+ "/*")) = Ok files ->
  exists uploads,
    snd (push_files_from_worker w (init sp) local_staging_directory [])
    = GlobGlob (local_staging_directory +:+ "/*") :: uploads /\
    List.length uploads = List.length files /\
    Forall (upload_request sp) uploads.
Proof.
  intros Hglob. exists (List.map (upload_of (init sp)) files).
  split; [|split].
  - assert (H : push_files_from_worker w (init sp) local_staging_directory []
                = (Returned
                     (if existsb (fun b => b)
                           (failures w [GlobGlob (local_staging_directory +:+ "/*")]
                              (List.map (upload_of (init sp)) files))
                      then 1%Z else 0%Z),
                   [GlobGlob (local_staging_directory +:+ "/*")]
                   ++ List.map (upload_of (init sp)) files)).
    { unfold push_files_from_worker.
      erewrite bind_returned
        by (apply (invoke_ok w (GlobGlob (local_staging_directory +:+ "/*")) []);
            exact Hglob).
      apply (guarded_loop w (upload_of (init sp)) files 0%Z). }
    rewrite H. reflexivity.
  - apply length_map.
  - apply Forall_forall. intros c Hc.
    apply list_elem_of_In, List.in_map_iff in Hc as (file & <- & _).
    apply upload_of_init.
Qed.

Lemma uploads_carry_acl_witness :
  exists uploads,
    snd (push_files_from_worker (stateless third_refused)
           (init (spec_of "bkt" "inbox" None)) "stage" [])
    = GlobGlob "stage/*" :: uploads /\
    List.length uploads = 5 /\
    Forall (upload_request (spec_of "bkt" "inbox" None)) uploads.
Proof.
  exact (uploads_carry_acl (stateless third_refused) (spec_of "bkt" "inbox" None)
           "stage" staged eq_refl).
Defined.

(** ** The post-copy action: configuration and edge cases *)

(** X9: a configuration that lacks what the action reads makes
    [handle_post_copy_action] raise [KeyError] before any request: without
    [postCopyAction], without its [action], and, for a move of at least one
    file, without its [destination].  With no file, a move or a rename
    returns 0 without reading the destination and without a request. *)
Theorem post_copy_missing_configuration (re : re_module) (w : world)
    (self : S3Transfer) (files : list string) (tr : list call) :
  (postCopyAction (spec self) = None ->
   handle_post_copy_action re w self files tr = (Raised (KeyError "postCopyAction"), tr)) /\
  (forall d,
     postCopyAction (spec self) = Some d -> d !! "action" = None ->
     handle_post_copy_action re w self files tr = (Raised (KeyError "action"), tr)) /\
  (forall d,
     postCopyAction (spec self) = Some d -> d !! "action" = Some "move" ->
     d !! "destination" = None -> files <> [] ->
     handle_post_copy_action re w self files tr = (Raised (KeyError "destination"), tr)) /\
  (forall d a,
     postCopyAction (spec self) = Some d -> d !! "action" = Some a ->
     a = "move" \/ a = "rename" -> files = [] ->
     handle_post_copy_action re w self files tr = (Returned 0%Z, tr)).
Proof.
  split; [|split; [|split]].
  - intros Hpca. unfold handle_post_copy_action, bind, action_is, post_copy_action.
    rewrite Hpca. reflexivity.
  - intros d Hpca Ha.
    unfold handle_post_copy_action, bind, action_is, post_copy_action, getitem.
    rewrite Hpca, Ha. reflexivity.
  - intros d Hpca Ha Hd Hfiles. destruct files as [|file rest]; [congruence|].
    unfold handle_post_copy_action.
    erewrite bind_returned by (eapply action_is_lookup; eassumption). simpl String.eqb.
    erewrite bind_returned by reflexivity.
    erewrite bind_returned by (eapply action_is_lookup; eassumption). simpl String.eqb.
    erewrite bind_returned by reflexivity.
    erewrite bind_raised; [reflexivity|].
    unfold for_each. simpl for_fold.
    erewrite bind_raised; [reflexivity|].
    unfold post_copy_one.
    erewrite bind_returned by (eapply action_is_lookup; eassumption). simpl String.eqb.
    erewrite bind_returned by reflexivity.
    erewrite bind_raised; [reflexivity|].
    unfold post_copy_action, getitem. rewrite Hpca, Hd. reflexivity.
  - intros d a Hpca Ha Hmr ->. unfold handle_post_copy_action.
    erewrite bind_returned by (eapply action_is_lookup; eassumption).
    assert (Hdel : String.eqb a "delete" = false)
      by (destruct Hmr as [-> | ->]; reflexivity).
    rewrite Hdel. erewrite bind_returned by reflexivity.
    erewrite bind_returned by (eapply action_is_lookup; eassumption).
    destruct Hmr as [-> | ->]; simpl String.eqb.
    + erewrite bind_returned by reflexivity.
      erewrite bind_returned by reflexivity. reflexivity.
    + erewrite bind_returned by (eapply action_is_lookup; eassumption).
      simpl String.eqb.
      erewrite bind_returned by reflexivity. reflexivity.
Qed.

Lemma post_copy_missing_configuration_witness :
  handle_post_copy_action MiniRe.engine (stateless quiet) (lister "bkt") ["a"] []
  = (Raised (KeyError "postCopyAction"), []) /\
  handle_post_copy_action MiniRe.engine (stateless quiet)
    (init (spec_of "bkt" "" (Some (<["action" := "move"]> ∅)))) ["a"] []
  = (Raised (KeyError "destination"), []) /\
  handle_post_copy_action MiniRe.engine (stateless quiet)
    (init (spec_of "bkt" "" (Some (<["action" := "move"]> ∅)))) [] []
  = (Returned 0%Z, []).
Proof.
  split; [|split].
  - exact (proj1 (post_copy_missing_configuration MiniRe.engine (stateless quiet)
                    (lister "bkt") ["a"] []) eq_refl).
  - apply (proj1 (proj2 (proj2 (post_copy_missing_configuration MiniRe.engine
                                  (stateless quiet)
                                  (init (spec_of "bkt" "" (Some (<["action" := "move"]> ∅))))
                                  ["a"] [])))
             (<["action" := "move"]> ∅)); [reflexivity..|discriminate].
  - apply (proj2 (proj2 (proj2 (post_copy_missing_configuration MiniRe.engine
                                  (stateless quiet)
                                  (init (spec_of "bkt" "" (Some (<["action" := "move"]> ∅))))
                                  [] [])))
             (<["action" := "move"]> ∅) "move"); [reflexivity..|auto|reflexivity].
Defined.

(** X10: the [delete] action makes one request, whatever the number of
    files, none included: the quiet bulk delete of all the keys in the
    bucket of the handler.  It returns 0 when that request answers, whatever
    is reported in the answer, and raises what the request raises. *)
Theorem delete_action_one_request (re : re_module) (w : world) (self : S3Transfer)
    (d : gmap string string) (files : list string) (tr : list call) :
  postCopyAction (spec self) = Some d ->
  d !! "action" = Some "delete" ->
  handle_post_copy_action re w self files tr
  = (match w tr (DeleteObjects (bucket (spec self)) files true) with
     | Ok _ => Returned 0%Z
     | Err e => Raised e
     end,
     tr ++ [DeleteObjects (bucket (spec self)) files true]).
Proof.
  intros Hpca Ha. unfold handle_post_copy_action.
  erewrite bind_returned by (eapply action_is_lookup; eassumption). simpl String.eqb.
  destruct (w tr (DeleteObjects (bucket (spec self)) files true)) as [x|e] eqn:E.
  - erewrite bind_returned
      by (erewrite bind_returned
            by (apply (invoke_ok w (DeleteObjects (bucket (spec self)) files true));
                exact E);
          reflexivity).
    erewrite bind_returned by (eapply action_is_lookup; eassumption). simpl String.eqb.
    erewrite bind_returned by (eapply action_is_lookup; eassumption). simpl String.eqb.
    erewrite bind_returned by reflexivity. reflexivity.
  - erewrite bind_raised; [reflexivity|].
    erewrite bind_raised; [reflexivity|]. now apply invoke_err.
Qed.

Lemma delete_action_one_request_witness :
  handle_post_copy_action MiniRe.engine (stateless delete_reports_errors)
    (deleter "bkt") [] []
  = (Returned 0%Z, [DeleteObjects "bkt" [] true]).
Proof.
  exact (delete_action_one_request MiniRe.engine (stateless delete_reports_errors)
           (deleter "bkt") delete_action [] [] eq_refl eq_refl).
Defined.

(** X11: an action that is none of [delete], [move] and [rename] is not an
    error: [handle_post_copy_action] makes no request and returns 0. *)
Theorem unknown_action_is_ignored (re : re_module) (w : world) (self : S3Transfer)
    (d : gmap string string) (a : string) (files : list string) (tr : list call) :
  postCopyAction (spec self) = Some d ->
  d !! "action" = Some a ->
  a <> "delete" -> a <> "move" -> a <> "rename" ->
  handle_post_copy_action re w self files tr = (Returned 0%Z, tr).
Proof.
  intros Hpca Ha Hd Hm Hr. unfold handle_post_copy_action.
  apply String.eqb_neq in Hd, Hm, Hr.
  erewrite bind_returned by (eapply action_is_lookup; eassumption). rewrite Hd.
  erewrite bind_returned by reflexivity.
  erewrite bind_returned by (eapply action_is_lookup; eassumption). rewrite Hm.
  erewrite bind_returned by (eapply action_is_lookup; eassumption). rewrite Hr.
  erewrite bind_returned by reflexivity. reflexivity.
Qed.

Lemma unknown_action_is_ignored_witness :
  handle_post_copy_action MiniRe.engine (stateless copy_denied)
    (init (spec_of "bkt" "" (Some (<["action" := "archive"]> ∅)))) ["a"; "b"] []
  = (Returned 0%Z, []).
Proof.
  apply (unknown_action_is_ignored MiniRe.engine (stateless copy_denied)
           (init (spec_of "bkt" "" (Some (<["action" := "archive"]> ∅))))
           (<["action" := "archive"]> ∅) "archive");
    [reflexivity|reflexivity|discriminate..].
Defined.

(** ** Leaf names *)

Module PyStrFacts.
Import PyStr.

Lemma append_cons c s t : String c s +:+ t = String c (s +:+ t).
Proof. reflexivity. Qed.

Lemma append_empty t : "" +:+ t = t.
Proof. reflexivity. Qed.

Lemma append_assoc s1 s2 s3 : (s1 +:+ s2) +:+ s3 = s1 +:+ s2 +:+ s3.
Proof.
  induction s1 as [|c s1 IH]; [reflexivity|].
  rewrite !append_cons, IH. reflexivity.
Qed.

Lemma split_nonempty sep s : split sep s <> [].
Proof.
  destruct s as [|c s]; simpl; [discriminate|].
  destruct (Ascii.eqb c sep); [discriminate|].
  destruct (split sep s); discriminate.
Qed.

(** [(a + sep + b).split(sep) = a.split(sep) + b.split(sep)]. *)
Lemma split_app sep a b :
  split sep (a +:+ String sep b) = split sep a ++ split sep b.
Proof.
  induction a as [|c a IH].
  - rewrite append_empty. simpl. now rewrite Ascii.eqb_refl.
  - rewrite append_cons. simpl. rewrite IH.
    destruct (Ascii.eqb c sep); [reflexivity|].
    pose proof (split_nonempty sep a) as Hne.
    destruct (split sep a) as [|x xs]; [congruence|reflexivity].
Qed.

Lemma split_no_sep sep s :
  ~ In sep (list_ascii_of_string s) -> split sep s = [s].
Proof.
  induction s as [|c s IH]; intros Hs; [reflexivity|].
  simpl in *. destruct (Ascii.eqb_spec c sep) as [->|Hne]; [tauto|].
  rewrite IH by tauto. reflexivity.
Qed.

Lemma split_segments sep s :
  Forall (fun x => ~ In sep (list_ascii_of_string x)) (split sep s).
Proof.
  induction s as [|c s IH]; simpl.
  - repeat constructor. simpl. tauto.
  - destruct (Ascii.eqb_spec c sep) as [->|Hne].
    + constructor; [simpl; tauto|exact IH].
    + pose proof (split_nonempty sep s) as Hnil.
      destruct (split sep s) as [|x xs]; [congruence|].
      inversion IH as [|? ? Hx Hxs]; subst.
      constructor; [|exact Hxs]. simpl. intros [H|H]; [congruence|tauto].
Qed.

Lemma last_app_nonempty {A} (l1 l2 : list A) d :
  l2 <> [] -> List.last (l1 ++ l2) d = List.last l2 d.
Proof.
  intros Hne. induction l1 as [|x l1 IH]; [reflexivity|].
  simpl. rewrite IH. destruct (l1 ++ l2) eqn:E; [|reflexivity].
  apply app_eq_nil in E as [_ ->]. congruence.
Qed.

Lemma concat_snoc sep l b :
  l <> [] -> String.concat sep (l ++ [b]) = String.concat sep l +:+ sep +:+ b.
Proof.
  induction l as [|x l IH]; intros Hne; [congruence|].
  destruct l as [|y l].
  - reflexivity.
  - change (String.concat sep ((x :: y :: l) ++ [b]))
      with (x +:+ sep +:+ String.concat sep ((y :: l) ++ [b])).
    rewrite IH by discriminate.
    change (String.concat sep (x :: y :: l))
      with (x +:+ sep +:+ String.concat sep (y :: l)).
    rewrite !append_assoc. reflexivity.
Qed.

(** ["/".join(s.split("/")) = s]. *)
Lemma join_split sep s :
  String.concat (String sep "") (split sep s) = s.
Proof.
  induction s as [|c s IH]; [reflexivity|].
  simpl. pose proof (split_nonempty sep s) as Hne.
  destruct (Ascii.eqb_spec c sep) as [->|Hc].
  - destruct (split sep s) as [|x xs] eqn:E; [congruence|].
    change (String.concat (String sep "") ("" :: x :: xs))
      with ("" +:+ String sep "" +:+ String.concat (String sep "") (x :: xs)).
    rewrite IH. reflexivity.
  - destruct (split sep s) as [|x xs] eqn:E; [congruence|].
    destruct xs as [|y ys].
    + simpl in *. now rewrite IH.
    + change (String.concat (String sep "") (String c x :: y :: ys))
        with (String c x +:+ String sep "" +:+ String.concat (String sep "") (y :: ys)).
      change (String.concat (String sep "") (x :: y :: ys))
        with (x +:+ String sep "" +:+ String.concat (String sep "") (y :: ys)) in IH.
      rewrite append_cons, IH. reflexivity.
Qed.

Lemma basename_no_slash s : no_slash (basename s).
Proof.
  unfold no_slash, basename.
  pose proof (split_segments "/"%char s) as H.
  pose proof (split_nonempty "/"%char s) as Hne.
  destruct (exists_last Hne) as (l & b & E). rewrite E in *.
  rewrite last_last. apply Forall_app in H as [_ H]. now inversion H.
Qed.

Lemma basename_flat s : no_slash s -> basename s = s.
Proof. intros H. unfold basename. now rewrite split_no_sep. Qed.

Lemma basename_join d f : basename (d +:+ "/" +:+ f) = basename f.
Proof.
  unfold basename. change ("/" +:+ f) with (String "/"%char f).
  rewrite split_app. apply last_app_nonempty, split_nonempty.
Qed.

Lemma basename_idempotent s : basename (basename s) = basename s.
Proof. apply basename_flat, basename_no_slash. Qed.

End PyStrFacts.

(** X12: the leaf name [key.split("/")[-1]] is what follows the last ['/']
    of the key: it has no ['/'], and the key is the leaf name behind a
    prefix that is empty or ends with ['/'].  A key without ['/'] is its own
    leaf name, and the leaf name of [d + "/" + f] is that of [f]. *)
Theorem leaf_name (s : string) :
  no_slash (PyStr.basename s) /\
  (exists d, s = d +:+ PyStr.basename s /\ (d = "" \/ exists d', d = d' +:+ "/")) /\
  (no_slash s -> PyStr.basename s = s) /\
  (forall d, PyStr.basename (d +:+ "/" +:+ s) = PyStr.basename s).
Proof.
  split; [apply PyStrFacts.basename_no_slash|].
  split; [|split; [apply PyStrFacts.basename_flat|
                   intros d; apply PyStrFacts.basename_join]].
  pose proof (PyStrFacts.join_split "/"%char s) as Hjoin.
  pose proof (PyStrFacts.split_nonempty "/"%char s) as Hne.
  unfold PyStr.basename.
  destruct (exists_last Hne) as (l & b & E). rewrite E in *. rewrite last_last.
  destruct l as [|x l].
  - exists "". simpl in Hjoin. split; [now rewrite Hjoin|auto].
  - exists (String.concat "/" (x :: l) +:+ "/").
    rewrite PyStrFacts.concat_snoc in Hjoin by discriminate.
    split; [|eauto]. rewrite PyStrFacts.append_assoc. now rewrite Hjoin.
Qed.

Lemma leaf_name_witness : PyStr.basename "report.csv" = "report.csv".
Proof.
  apply (proj1 (proj2 (proj2 (leaf_name "report.csv")))).
  unfold no_slash. vm_compute. intros H.
  repeat (destruct H as [H|H]; [discriminate H|]). exact H.
Defined.

(** ** Transfers keep leaf names *)

Lemma emits_guarded_loop w P (mk : string -> call) files :
  (forall file, P (mk file)) ->
  forall result : Z,
    emits P (for_fold files result
               (fun file result =>
                  try_except (invoke w (mk file) ;;; ret result) (fun _ => ret 1%Z))).
Proof.
  intros Hmk result. apply emits_for_fold. intros file r.
  apply emits_try_except; [|intros e; apply emits_ret].
  apply emits_bind; [apply emits_invoke; apply Hmk|]. intros x. apply emits_ret.
Qed.

Lemma leaf_of_target dir file :
  PyStr.basename (dir +:+ "/" +:+ PyStr.basename file) = PyStr.basename file.
Proof.
  rewrite PyStrFacts.basename_join. apply PyStrFacts.basename_idempotent.
Qed.

(** X13: the three transfers keep leaf names, on any backend: the key an
    upload stores a local file under, the local file a download writes a
    key to, and the key a store-to-store copy writes to all have the leaf
    name of what is transferred, whatever the directories on either side.
    A listing of the destination then filters these objects by the names
    they had at the source. *)
Theorem transfers_keep_leaf_names (w : world) (self : S3Transfer)
    (files : list string) (local_staging_directory : string)
    (remote_spec : Spec) (dest : option remote_handler) :
  Forall keeps_leaf_name (snd (push_files_from_worker w self local_staging_directory [])) /\
  Forall keeps_leaf_name
    (snd (pull_files_to_worker w self files local_staging_directory [])) /\
  Forall keeps_leaf_name (snd (transfer_files w self files remote_spec dest [])).
Proof.
  split; [|split].
  - assert (H : emits keeps_leaf_name
                  (push_files_from_worker w self local_staging_directory)).
    { unfold push_files_from_worker.
      apply emits_bind; [apply emits_invoke; exact I|]. intros globbed.
      apply (emits_guarded_loop w keeps_leaf_name (upload_of self)).
      intros file. apply leaf_of_target. }
    destruct (H []) as (cs & -> & Hcs). exact Hcs.
  - assert (H : emits keeps_leaf_name
                  (pull_files_to_worker w self files local_staging_directory)).
    { apply (emits_guarded_loop w keeps_leaf_name
               (download_of self local_staging_directory)).
      intros file. apply leaf_of_target. }
    destruct (H []) as (cs & -> & Hcs). exact Hcs.
  - destruct dest as [[d|name]|]; [|constructor..].
    assert (H : emits keeps_leaf_name
                  (transfer_files w self files remote_spec (Some (S3Handler d)))).
    { unfold transfer_files.
      apply emits_bind; [|intros r; apply emits_ret].
      apply (emits_guarded_loop w keeps_leaf_name (copy_of self d)).
      intros file. apply leaf_of_target. }
    destruct (H []) as (cs & -> & Hcs). exact Hcs.
Qed.
